(** * FFNN: a feed-forward neural network engine (FFNN.hpp / FFNN.inl)

    Shallow embedding of the layer kernel ([Layer::compute],
    [Layer::train]), of the scratch buffers ([ComputeBuffer],
    [TrainBuffer]) and of the network drivers ([Network::compute],
    [Network::train]).

    Conventions of the embedding.
    - The scalar type [T] of the templates is a type with the operations
      the code applies to it ([Scalar]); no algebraic law is assumed, so
      every sum is written in the order in which the loops evaluate it.
    - A contiguous container is a [list T]; an iterator into it is a
      position [nat].  Dereferencing a position outside the container is
      undefined behaviour in the source and calling an empty
      [std::function] throws: both are the result [None] here.
    - Sizes ([size_type], that is [std::size_t], 64 bits) are natural
      numbers.  The constructor's [(inputs + 1) * outputs] is computed
      modulo [2^64], as the code computes it ([size_add], [size_mul]).
      The accessors' index [out * (1 + in_size) + in + 1] is written over
      the natural numbers: it is the value the code computes whenever it is
      below [2^64], which holds for every index inside a weight store, and
      the statements about indices outside the store bound it so.
    - A member function that mutates its object returns the new object.
    - Of the presets, [Heaviside] is embedded; [Sigmoid] and
      [HyperbolicTangent] need [exp], [log], [tanh] and [atanh] of the
      scalar type and play no part below. *)

From stdpp Require Import base option list numbers.

Set Default Proof Using "Type".

(** ** Scalars *)

Class Scalar (T : Type) := {
  s_zero : T;                 (* T(0), also the value-initialised T() *)
  s_one : T;                  (* T(1) *)
  s_add : T → T → T;
  s_sub : T → T → T;
  s_mul : T → T → T;
  s_geb : T → T → bool;       (* x >= y *)
  s_ltb : T → T → bool        (* x < y *)
}.

(** The only facts about the comparisons that are ever used: [x < y] and
    [x >= y] do not hold together, and [0 >= 0]. *)
Class ScalarOrder (T : Type) `{Scalar T} := {
  s_ltb_not_geb : ∀ x y : T, s_ltb x y = true → s_geb x y = false;
  s_geb_zero : s_geb (s_zero : T) s_zero = true
}.

#[export] Instance Z_Scalar : Scalar Z := {|
  s_zero := 0%Z; s_one := 1%Z;
  s_add := Z.add; s_sub := Z.sub; s_mul := Z.mul;
  s_geb := Z.geb; s_ltb := Z.ltb
|}.

(** ** Sizes

    [size_type] arithmetic wraps around at [2^64].  The operations go
    through the binary numbers, so that they evaluate on small sizes. *)

Definition size_modulus : N := (2 ^ 64)%N.

Definition size_add (a b : nat) : nat :=
  N.to_nat ((N.of_nat a + N.of_nat b) mod size_modulus).

Definition size_mul (a b : nat) : nat :=
  N.to_nat ((N.of_nat a * N.of_nat b) mod size_modulus).

(** [n] is a value of [size_type]. *)
Definition size_fits (n : nat) : Prop := (N.of_nat n < size_modulus)%N.

(** The weight count [(in + 1) * out] of every layer that the network
    constructor builds from [nodes] fits [size_type]; [prev] is the input
    size of the first layer. *)
Fixpoint nodes_fit (prev : nat) (nodes : list nat) : Prop :=
  match nodes with
  | [] => True
  | size :: nodes' => size_fits ((prev + 1) * size) ∧ nodes_fit size nodes'
  end.

(** The default of the total lookup [!!!] is the value-initialised scalar. *)
#[export] Instance Scalar_inhabited {T : Type} `{Scalar T} : Inhabited T :=
  populate s_zero.

Section FFNN.
Context {T : Type} `{Scalar T}.

(** ** Containers and iterators *)

(** Reading the cell under [it] is [l !! it].  Writing [x] to it: *)
Definition store (l : list T) (it : nat) (x : T) : option (list T) :=
  if decide (it < length l) then Some (<[it := x]> l) else None.

(** The compound assignment [-=] on the cell under [it]: a read followed
    by a write of the same cell. *)
Definition sub_assign (l : list T) (it : nat) (x : T) : option (list T) :=
  y ← l !! it; store l it (s_sub y x).

(** ** TransferFunction and the Heaviside preset *)

Record TransferFunction := {
  transfer : option (T → T);
  derivative : option (T → T);
  inverse : option (T → T)
}.

Definition Heaviside : TransferFunction := {|
  transfer := Some (λ x, if s_geb x s_zero then s_one else s_zero);
  derivative := Some (λ _, s_one);
  inverse := None
|}.

(** ** Layer *)

Record Layer := {
  in_size : nat;
  out_size : nat;
  tf : TransferFunction;
  w : list T
}.

Definition Layer_new (inputs outputs : nat) (transfer : TransferFunction) : Layer :=
  {| in_size := inputs; out_size := outputs; tf := transfer;
     w := replicate (size_mul (size_add inputs 1) outputs) s_zero |}.

Definition inputs (L : Layer) : nat := in_size L.
Definition outputs (L : Layer) : nat := out_size L.
Definition weights (L : Layer) : nat := length (w L).

Definition weight_index (L : Layer) (inp out : nat) : nat :=
  out * (1 + in_size L) + inp + 1.

Definition bias_index (L : Layer) (out : nat) : nat :=
  out * (1 + in_size L).

Definition weight (L : Layer) (inp out : nat) : option T :=
  w L !! weight_index L inp out.


Definition bias (L : Layer) (out : nat) : option T :=
  w L !! bias_index L out.

(** *** Layer::compute *)

(** The inner loop: [v] is increased by the product of the cell under
    [in_iter] and the cell under [w_iter], and both cursors advance;
    [n] iterations are left. *)
Fixpoint compute_inputs (n : nat) (wv input : list T)
    (w_iter in_iter : nat) (v : T) : option (T * nat) :=
  match n with
  | 0 => Some (v, w_iter)
  | S n' =>
      x ← input !! in_iter;
      wt ← wv !! w_iter;
      compute_inputs n' wv input (S w_iter) (S in_iter) (s_add v (s_mul x wt))
  end.

(** The outer loop over the output units, [n] iterations left. *)
Fixpoint compute_outputs (n : nat) (L : Layer) (input : list T)
    (w_iter : nat) (output : list T) (out_iter : nat) : option (list T) :=
  match n with
  | 0 => Some output
  | S n' =>
      b ← w L !! w_iter;
      '(v, w_iter') ← compute_inputs (in_size L) (w L) input (S w_iter) 0 b;
      f ← transfer (tf L);
      output' ← store output out_iter (f v);
      compute_outputs n' L input w_iter' output' (S out_iter)
  end.

Definition Layer_compute (L : Layer) (input output : list T) : option (list T) :=
  compute_outputs (out_size L) L input 0 output 0.

(** *** Layer::train *)

(** The seeding loop: the cell under [in_iter] is copied to the cell under
    [back_iter], and both cursors advance. *)
Fixpoint train_seed (n : nat) (input back : list T)
    (in_iter back_iter : nat) : option (list T) :=
  match n with
  | 0 => Some back
  | S n' =>
      x ← input !! in_iter;
      back' ← store back back_iter x;
      train_seed n' input back' (S in_iter) (S back_iter)
  end.

(** The inner loop of the update.  First the cell under [w_iter] is
    decreased by [rate * delta] times the cell under [in_iter]; then the
    cell under [back_iter] is decreased by [delta] times the cell under
    [w_iter], read again after that update; then the cursors advance. *)
Fixpoint train_inputs (n : nat) (rate delta : T) (input wv back : list T)
    (w_iter in_iter back_iter : nat) : option (list T * list T * nat) :=
  match n with
  | 0 => Some (wv, back, w_iter)
  | S n' =>
      x ← input !! in_iter;
      wv' ← sub_assign wv w_iter (s_mul (s_mul rate delta) x);
      wt ← wv' !! w_iter;
      back' ← sub_assign back back_iter (s_mul delta wt);
      train_inputs n' rate delta input wv' back' (S w_iter) (S in_iter) (S back_iter)
  end.

(** The loop over the output units. *)
Fixpoint train_outputs (n : nat) (L : Layer) (rate : T)
    (input output target wv back : list T)
    (w_iter out_iter target_iter : nat) : option (list T * list T) :=
  match n with
  | 0 => Some (wv, back)
  | S n' =>
      d ← derivative (tf L);
      y ← output !! out_iter;
      t ← target !! target_iter;
      let delta := s_mul (d y) (s_sub y t) in
      wv1 ← sub_assign wv w_iter (s_mul rate delta);
      '(wv2, back', w_iter') ←
        train_inputs (in_size L) rate delta input wv1 back (S w_iter) 0 0;
      train_outputs n' L rate input output target wv2 back'
        w_iter' (S out_iter) (S target_iter)
  end.

Definition with_w (L : Layer) (wv : list T) : Layer :=
  {| in_size := in_size L; out_size := out_size L; tf := tf L; w := wv |}.

Definition Layer_train (L : Layer) (rate : T)
    (input output target back : list T) : option (Layer * list T) :=
  back0 ← train_seed (in_size L) input back 0 0;
  '(wv, back') ←
    train_outputs (out_size L) L rate input output target (w L) back0 0 0 0;
  Some (with_w L wv, back').

(** ** ComputeBuffer *)

Record ComputeBuffer := { A : list T; B : list T }.

(** [if (c.size() < s) c.resize(s);]  New cells are value-initialised. *)
Definition grow (s : nat) (c : list T) : list T :=
  if decide (length c < s) then resize s s_zero c else c.

(** [beginA] and [beginB] return the position 0 of the container; the
    embedding returns the buffer after the call. *)
Definition beginA (s : nat) (buffer : ComputeBuffer) : ComputeBuffer :=
  {| A := grow s (A buffer); B := B buffer |}.

Definition beginB (s : nat) (buffer : ComputeBuffer) : ComputeBuffer :=
  {| A := A buffer; B := grow s (B buffer) |}.

Definition set_A (buffer : ComputeBuffer) (a : list T) : ComputeBuffer :=
  {| A := a; B := B buffer |}.

Definition set_B (buffer : ComputeBuffer) (b : list T) : ComputeBuffer :=
  {| A := A buffer; B := b |}.

(** ** TrainBuffer: a vector of ComputeBuffer *)

#[local] Abbreviation TrainBuffer := (list ComputeBuffer).

Definition ComputeBuffer_new : ComputeBuffer := {| A := []; B := [] |}.

(** [if (buffer.size() < n) buffer.resize(n);] *)
Definition grow_slots (n : nat) (buffer : TrainBuffer) : TrainBuffer :=
  if decide (length buffer < n) then resize n ComputeBuffer_new buffer else buffer.

(** ** Network *)

Record Network := { l : list Layer }.

(** The loop of the constructor; [prev] is the input size of the next layer. *)
Fixpoint Network_layers (prev : nat) (nodes : list nat)
    (transfer : TransferFunction) : list Layer :=
  match nodes with
  | [] => []
  | size :: nodes' =>
      Layer_new prev size transfer :: Network_layers size nodes' transfer
  end.

Definition Network_new (inputs : nat) (nodes : list nat)
    (transfer : TransferFunction) : Network :=
  {| l := Network_layers inputs nodes transfer |}.

Definition layers (N : Network) : nat := length (l N).

(** *** Network::compute *)

(** The container [b_iter] points into. *)
Inductive Side := SideA | SideB.

Definition side_begin (s : Side) (buffer : ComputeBuffer) : list T :=
  match s with SideA => A buffer | SideB => B buffer end.

(** The [while] loop over the layers strictly between the first and the
    last ([mid]), two per iteration: one from [A] into [B], then, unless
    the last layer is reached, one from [B] into [A]. *)
Fixpoint compute_loop (mid : list Layer) (buffer : ComputeBuffer)
    : option (Side * ComputeBuffer) :=
  match mid with
  | [] => Some (SideA, buffer)
  | L1 :: mid1 =>
      let buffer1 := beginB (outputs L1) buffer in
      b ← Layer_compute L1 (A buffer1) (B buffer1);
      let buffer2 := set_B buffer1 b in
      match mid1 with
      | [] => Some (SideB, buffer2)
      | L2 :: mid2 =>
          let buffer3 := beginA (outputs L2) buffer2 in
          a ← Layer_compute L2 (B buffer3) (A buffer3);
          compute_loop mid2 (set_A buffer3 a)
      end
  end.

(** The result is the caller's output range and the buffer after the call.
    On an empty layer container [--l.cend()] is undefined. *)
Definition Network_compute (N : Network) (input output : list T)
    (buffer : ComputeBuffer) : option (list T * ComputeBuffer) :=
  match l N with
  | [] => None
  | l_first :: rest =>
      match rest with
      | [] =>
          out ← Layer_compute l_first input output;
          Some (out, buffer)
      | _ :: _ =>
          let l_last := List.last rest l_first in
          let buffer1 := beginA (outputs l_first) buffer in
          a ← Layer_compute l_first input (A buffer1);
          '(side, buffer2) ← compute_loop (removelast rest) (set_A buffer1 a);
          out ← Layer_compute l_last (side_begin side buffer2) output;
          Some (out, buffer2)
      end
  end.

(** The overload without a buffer: a temporary, empty [ComputeBuffer]. *)
Definition Network_compute_temp (N : Network) (input output : list T)
    : option (list T) :=
  '(out, _) ← Network_compute N input output ComputeBuffer_new;
  Some out.

(** *** Network::train *)

(** [--it] and [std::prev(it)]: undefined at the start of the container. *)
Definition prev_it (it : nat) : option nat :=
  match it with 0 => None | S it' => Some it' end.

(** The forward loop over the layers after the first: layer [k] reads slot
    [k-1]'s [A] and writes slot [k]'s [A]. *)
Fixpoint train_forward (ls : list Layer) (buffer : TrainBuffer) (b_iter : nat)
    : option (TrainBuffer * nat) :=
  match ls with
  | [] => Some (buffer, b_iter)
  | L :: ls' =>
      src ← buffer !! b_iter;
      dst ← buffer !! S b_iter;
      let dst1 := beginA (outputs L) dst in
      a ← Layer_compute L (A src) (A dst1);
      train_forward ls' (<[S b_iter := set_A dst1 a]> buffer) (S b_iter)
  end.

(** One call [l_iter->train (rate, input, b_iter->A.begin(), target,
    b_iter->beginB(l_iter->inputs()))]: all four calls of [Network::train]
    have this shape and differ in [input] and [target]. *)
Definition train_call (ls : list Layer) (l_iter : nat) (rate : T)
    (input target : list T) (buffer : TrainBuffer) (b_iter : nat)
    : option (list Layer * TrainBuffer) :=
  L ← ls !! l_iter;
  slot ← buffer !! b_iter;
  let slot1 := beginB (inputs L) slot in
  '(L', back) ← Layer_train L rate input (A slot1) target (B slot1);
  Some (<[l_iter := L']> ls, <[b_iter := set_B slot1 back]> buffer).

(** The loop [while (--l_iter != l_iter) { ... --b_iter; }].  Its test
    decrements [l_iter] and compares the iterator with itself. *)
Fixpoint train_interior (fuel : nat) (rate : T) (ls : list Layer)
    (buffer : TrainBuffer) (l_iter b_iter : nat)
    : option (list Layer * TrainBuffer * nat * nat) :=
  l_iter1 ← prev_it l_iter;
  if decide (l_iter1 ≠ l_iter1) then
    match fuel with
    | 0 => None
    | S fuel' =>
        pb ← prev_it b_iter;
        prev ← buffer !! pb;
        next ← buffer !! S b_iter;
        '(ls1, buffer1) ←
          train_call ls l_iter1 rate (A prev) (B next) buffer b_iter;
        b_iter1 ← prev_it b_iter;
        train_interior fuel' rate ls1 buffer1 l_iter1 b_iter1
    end
  else Some (ls, buffer, l_iter1, b_iter).

Definition Network_train (N : Network) (rate : T) (input target : list T)
    (buffer : TrainBuffer) : option (Network * TrainBuffer) :=
  match l N with
  | [] => None
  | l_first :: rest =>
      let buffer0 := grow_slots (length (l N)) buffer in
      (* forward pass *)
      slot0 ← buffer0 !! 0;
      let slot1 := beginA (outputs l_first) slot0 in
      a ← Layer_compute l_first input (A slot1);
      '(buffer1, b_iter) ←
        train_forward rest (<[0 := set_A slot1 a]> buffer0) 0;
      (* backward pass *)
      l_iter ← prev_it (length (l N));
      if decide (l_iter = 0) then
        '(ls1, buffer2) ← train_call (l N) l_iter rate input target buffer1 b_iter;
        Some ({| l := ls1 |}, buffer2)
      else
        pb ← prev_it b_iter;
        prev ← buffer1 !! pb;
        '(ls1, buffer2) ←
          train_call (l N) l_iter rate (A prev) target buffer1 b_iter;
        b_iter1 ← prev_it b_iter;
        '(ls2, buffer3, l_iter2, b_iter2) ←
          train_interior (length (l N)) rate ls1 buffer2 l_iter b_iter1;
        next ← buffer3 !! S b_iter2;
        '(ls3, buffer4) ←
          train_call ls2 l_iter2 rate input (B next) buffer3 b_iter2;
        Some ({| l := ls3 |}, buffer4)
  end.

(** The overload without a buffer: a temporary, empty [TrainBuffer]. *)
Definition Network_train_temp (N : Network) (rate : T) (input target : list T)
    : option Network :=
  '(N', _) ← Network_train N rate input target [];
  Some N'.

(** ** The backward pass, layer by layer

    The reference for [Network::train]: the same forward pass, then the
    last layer is trained against the external target, every interior layer
    [k], from the last but one down to the second, with slot [k-1]'s [A] as
    input and slot [k+1]'s [B] as target, and the first layer with the
    external input. *)

(** Trains the layers [k], [k-1], ..., [1]. *)
Fixpoint backward_interior (k : nat) (rate : T) (ls : list Layer)
    (buffer : TrainBuffer) : option (list Layer * TrainBuffer) :=
  match k with
  | 0 => Some (ls, buffer)
  | S k' =>
      prev ← buffer !! k';
      next ← buffer !! S k;
      '(ls1, buffer1) ← train_call ls k rate (A prev) (B next) buffer k;
      backward_interior k' rate ls1 buffer1
  end.

Definition Network_train_backward (N : Network) (rate : T)
    (input target : list T) (buffer : TrainBuffer)
    : option (Network * TrainBuffer) :=
  match l N with
  | [] => None
  | l_first :: rest =>
      let buffer0 := grow_slots (length (l N)) buffer in
      slot0 ← buffer0 !! 0;
      let slot1 := beginA (outputs l_first) slot0 in
      a ← Layer_compute l_first input (A slot1);
      '(buffer1, _) ←
        train_forward rest (<[0 := set_A slot1 a]> buffer0) 0;
      match length rest with
      | 0 =>
          '(ls1, buffer2) ← train_call (l N) 0 rate input target buffer1 0;
          Some ({| l := ls1 |}, buffer2)
      | S k =>
          prev ← buffer1 !! k;
          '(ls1, buffer2) ←
            train_call (l N) (S k) rate (A prev) target buffer1 (S k);
          '(ls2, buffer3) ← backward_interior k rate ls1 buffer2;
          next ← buffer3 !! 1;
          '(ls3, buffer4) ← train_call ls2 0 rate input (B next) buffer3 0;
          Some ({| l := ls3 |}, buffer4)
      end
  end.

(** ** Reference values

    The quantities the loops compute, written as closed expressions over
    the state at entry.  Cells are read with the total lookup [!!!]; the
    statements that use these expressions bound every index. *)

(** [bias(o) + input[0]*weight(0,o) + ... + input[I-1]*weight(I-1,o)],
    summed from the left, starting from the bias. *)
Definition weighted_sum (L : Layer) (input : list T) (o : nat) : T :=
  foldl (λ v i, s_add v (s_mul (input !!! i) (w L !!! weight_index L i o)))
        (w L !!! bias_index L o) (seq 0 (in_size L)).

(** The values [Layer::compute] writes, for a transfer function [f]. *)
Definition Layer_values (f : T → T) (L : Layer) (input : list T) : list T :=
  (λ o, f (weighted_sum L input o)) <$> seq 0 (out_size L).

(** The error term of output unit [o], for a derivative [d]:
    [derivative(output[o]) * (output[o] - target[o])]. *)
Definition delta_of (d : T → T) (output target : list T) (o : nat) : T :=
  s_mul (d (output !!! o)) (s_sub (output !!! o) (target !!! o)).

(** [bias(o) - rate * delta_o] and
    [weight(i,o) - rate * delta_o * input[i]], over the weights at entry. *)
Definition bias_updated (L : Layer) (rate : T) (d : T → T)
    (output target : list T) (o : nat) : T :=
  s_sub (w L !!! bias_index L o) (s_mul rate (delta_of d output target o)).

Definition weight_updated (L : Layer) (rate : T) (d : T → T)
    (input output target : list T) (i o : nat) : T :=
  s_sub (w L !!! weight_index L i o)
        (s_mul (s_mul rate (delta_of d output target o)) (input !!! i)).

(** [input[i] - delta_0 * x_0 - ... - delta_(O-1) * x_(O-1)], subtracted
    from the left, where [x_o] is given by [wt i o]. *)
Definition back_sum (L : Layer) (d : T → T) (input output target : list T)
    (wt : nat → nat → T) (i : nat) : T :=
  foldl (λ acc o, s_sub acc (s_mul (delta_of d output target o) (wt i o)))
        (input !!! i) (seq 0 (out_size L)).

(** The back signal over the weights as they are at entry to the call ... *)
Definition back_signal_pre (L : Layer) (d : T → T)
    (input output target : list T) (i : nat) : T :=
  back_sum L d input output target (λ i o, w L !!! weight_index L i o) i.

(** ... and over the weights after their own update in the same call. *)
Definition back_signal_post (L : Layer) (rate : T) (d : T → T)
    (input output target : list T) (i : nat) : T :=
  back_sum L d input output target
           (weight_updated L rate d input output target) i.

(** ** A client of one layer

    A caller that owns a layer and calls [compute] and [train] on it in any
    order, with ranges of its own choice. *)

Inductive LayerCall :=
  | CallCompute (input output : list T)
  | CallTrain (rate : T) (input output target back : list T).

Definition Layer_call (L : Layer) (c : LayerCall) : option Layer :=
  match c with
  | CallCompute input output =>
      _ ← Layer_compute L input output; Some L
  | CallTrain rate input output target back =>
      '(L', _) ← Layer_train L rate input output target back; Some L'
  end.

Fixpoint Layer_calls (L : Layer) (cs : list LayerCall) : option Layer :=
  match cs with
  | [] => Some L
  | c :: cs' => L' ← Layer_call L c; Layer_calls L' cs'
  end.

(** The ranges handed to [Layer::train] are long enough for the layer. *)
Definition train_ranges_ok (L : Layer) (input output target back : list T) : Prop :=
  length (w L) = (in_size L + 1) * out_size L ∧
  in_size L ≤ length input ∧ in_size L ≤ length back ∧
  out_size L ≤ length output ∧ out_size L ≤ length target.

(** The reading of the back signal over the weights at entry to the call,
    as a statement about every call of [Layer::train]. *)
Definition back_from_entry_weights : Prop :=
  ∀ (L : Layer) (rate : T) (d : T → T) (input output target back : list T)
    (L' : Layer) (back' : list T),
    derivative (tf L) = Some d →
    train_ranges_ok L input output target back →
    Layer_train L rate input output target back = Some (L', back') →
    ∀ i, i < in_size L →
      back' !! i = Some (back_signal_pre L d input output target i).

(** ** A client of one ComputeBuffer

    Any sequence of [beginA] and [beginB] calls on one buffer. *)

Inductive BeginCall := BeginA (s : nat) | BeginB (s : nat).

Definition begin_call (buffer : ComputeBuffer) (c : BeginCall) : ComputeBuffer :=
  match c with
  | BeginA s => beginA s buffer
  | BeginB s => beginB s buffer
  end.

Definition begin_calls (buffer : ComputeBuffer) (cs : list BeginCall)
    : ComputeBuffer :=
  foldl begin_call buffer cs.

(** The sizes requested for [A], and for [B], in a sequence of calls. *)
Definition requested_A (cs : list BeginCall) : list nat :=
  omap (λ c, match c with BeginA s => Some s | BeginB _ => None end) cs.

Definition requested_B (cs : list BeginCall) : list nat :=
  omap (λ c, match c with BeginB s => Some s | BeginA _ => None end) cs.

(** ** Well-formed layers and networks *)

(** The weight store has its [(in_size+1)*out_size] entries and the
    transfer function is present. *)
Definition Layer_wf (L : Layer) : Prop :=
  length (w L) = (in_size L + 1) * out_size L ∧ is_Some (transfer (tf L)).

(** Each layer's input size is the output size of the layer before it;
    [prev] is the input size of the first one. *)
Fixpoint chained (prev : nat) (ls : list Layer) : Prop :=
  match ls with
  | [] => True
  | L :: ls' => in_size L = prev ∧ chained (out_size L) ls'
  end.

(** The output size of the last layer of [ls] ([prev] if there is none). *)
Definition out_of (prev : nat) (ls : list Layer) : nat :=
  foldl (λ _ L, out_size L) prev ls.

Definition Network_wf (n_in : nat) (N : Network) : Prop :=
  l N ≠ [] ∧ Forall Layer_wf (l N) ∧ chained n_in (l N).

(** A network that can be trained: every layer also has its derivative. *)
Definition Network_trainable (n_in : nat) (N : Network) : Prop :=
  Network_wf n_in N ∧ Forall (λ L, is_Some (derivative (tf L))) (l N).

(** The ranges handed to [Network::train] are long enough: the input for
    the first layer and for the layer that is trained last, which reads the
    external input, and the target for the last layer. *)
Definition Network_train_ranges_ok (n_in : nat) (N : Network)
    (input target : list T) : Prop :=
  n_in ≤ length input ∧
  out_of n_in (l N) ≤ length target ∧
  ∀ L, l N !! (length (l N) - 2) = Some L → in_size L ≤ length input.

(** ** Layer by layer, with explicit intermediate buffers

    The reference for [Network::compute]: every layer but the last computes
    into a fresh buffer of its output size, which the next layer reads; the
    last layer writes into the caller's output. *)
Fixpoint compose_layers (ls : list Layer) (input output : list T)
    : option (list T) :=
  match ls with
  | [] => None
  | L :: ls' =>
      match ls' with
      | [] => Layer_compute L input output
      | _ :: _ =>
          mid ← Layer_compute L input (replicate (out_size L) s_zero);
          compose_layers ls' mid output
      end
  end.

(** The activations of one layer and of a chain of layers, as values. *)
Definition Layer_apply (L : Layer) (input : list T) : list T :=
  match transfer (tf L) with
  | Some f => Layer_values f L input
  | None => []
  end.

Definition feed (ls : list Layer) (input : list T) : list T :=
  foldl (λ v L, Layer_apply L v) input ls.

End FFNN.

Arguments TransferFunction : clear implicits.
Arguments Layer : clear implicits.
Arguments ComputeBuffer : clear implicits.
Arguments Network : clear implicits.

(** [TrainBuffer<T>] derives from [std::vector<ComputeBuffer<T>>]. *)
Abbreviation TrainBuffer T := (list (ComputeBuffer T)).

Arguments LayerCall : clear implicits.
Arguments back_from_entry_weights T {_}.

(** ** Concrete layers over the integers *)

Definition heaviside_Z : TransferFunction Z := Heaviside.

Definition step_Z (x : Z) : Z := if (x >=? 0)%Z then 1%Z else 0%Z.
Definition one_Z (_ : Z) : Z := 1%Z.

(** One input, one output, bias 0 and weight 1. *)
Definition layer_1x1 : Layer Z :=
  {| in_size := 1; out_size := 1; tf := heaviside_Z; w := [0; 1]%Z |}.

(** Two inputs, two outputs: biases 1 and -4, weights (2, 3) and (5, -6). *)
Definition layer_2x2 : Layer Z :=
  {| in_size := 2; out_size := 2; tf := heaviside_Z;
     w := [1; 2; 3; -4; 5; -6]%Z |}.

(** Three layers of one unit each: biases 0, weights 1, 1 and 3. *)
Definition net_3 : Network Z :=
  {| l := [ {| in_size := 1; out_size := 1; tf := heaviside_Z; w := [0; 1]%Z |};
            {| in_size := 1; out_size := 1; tf := heaviside_Z; w := [0; 1]%Z |};
            {| in_size := 1; out_size := 1; tf := heaviside_Z; w := [0; 3]%Z |} ] |}.

(** The network whose only layer is [layer_2x2]. *)
Definition net_1 : Network Z := {| l := [layer_2x2] |}.

(** The weight stores of the layers of the network a call returns. *)
Definition weights_after {T : Type}
    (r : option (Network T * TrainBuffer T)) : option (list (list T)) :=
  (λ p, w <$> l p.1) <$> r.

(** ** The accessors and the rest of the interface *)

Section Interface.
Context {T : Type} `{Scalar T}.




(** [l.front().inputs()] and [l.back().outputs()]: undefined on an empty
    layer container. *)
Definition Network_inputs (N : Network T) : option nat :=
  L ← head (l N); Some (inputs L).

Definition Network_outputs (N : Network T) : option nat :=
  L ← l N !! pred (length (l N)); Some (outputs L).

(** [*std::next(l.begin(), i)] *)
Definition layer (N : Network T) (i : nat) : option (Layer T) := l N !! i.

(** Two layers with the same topology, transfer function and number of
    weights. *)
Definition same_shape (L L' : Layer T) : Prop :=
  in_size L' = in_size L ∧ out_size L' = out_size L ∧ tf L' = tf L ∧
  length (w L') = length (w L).

End Interface.

(** Scalars on which [x - x = 0], [x * 0 = 0 * x = 0] and [x - 0 = x]. *)
Class ScalarZeroLaws (T : Type) `{Scalar T} := {
  s_sub_diag : ∀ x : T, s_sub x x = s_zero;
  s_mul_zero_r : ∀ x : T, s_mul x s_zero = s_zero;
  s_mul_zero_l : ∀ x : T, s_mul s_zero x = s_zero;
  s_sub_zero_r : ∀ x : T, s_sub x s_zero = x
}.

(** Two inputs, one output: bias 0, weights 1 and 1. *)
Definition layer_2x1 : Layer Z :=
  {| in_size := 2; out_size := 1; tf := heaviside_Z; w := [0; 1; 1]%Z |}.

(** [layer_2x2] followed by [layer_2x1]. *)
Definition net_2 : Network Z := {| l := [layer_2x2; layer_2x1] |}.

(** * Properties *)

(** Without wrap-around the constructor's weight count is [(I+1)*O]. *)
Lemma size_new_fits (I O : nat) :
  size_fits ((I + 1) * O) → size_mul (size_add I 1) O = (I + 1) * O.
Proof.
  unfold size_fits, size_mul, size_add, size_modulus. intros Hfit.
  destruct (decide (O = 0)) as [->|HO].
  - rewrite N.mul_0_r, N.Div0.mod_0_l. lia.
  - assert (N.of_nat I + N.of_nat 1 < 2 ^ 64)%N by nia.
    rewrite (N.mod_small (N.of_nat I + N.of_nat 1)) by done.
    rewrite N2Nat.id, N.mod_small by lia. lia.
Qed.

#[local] Arguments size_mul : simpl never.
#[local] Arguments size_add : simpl never.

Section Layer_compute_facts.
Context {T : Type} `{Scalar T}.
Implicit Types (L : Layer T) (input output wv back target : list T).

Lemma store_Some output it x :
  it < length output → store output it x = Some (<[it := x]> output).
Proof. intros Hlt. unfold store. by rewrite decide_True. Qed.

Lemma store_length output it x output' :
  store output it x = Some output' → length output' = length output.
Proof.
  unfold store. case_decide; [|done]. intros [= <-]. apply length_insert.
Qed.

Lemma foldl_seq_S {X} (g : X → nat → X) (x : X) (j n : nat) :
  foldl g x (seq (S j) n) = foldl (λ a k, g a (S k)) x (seq j n).
Proof. by rewrite <- fmap_S_seq, foldl_fmap. Qed.

Lemma foldl_ext_seq {X} (g g' : X → nat → X) (x : X) (j n : nat) :
  (∀ a k, j ≤ k < j + n → g a k = g' a k) →
  foldl g x (seq j n) = foldl g' x (seq j n).
Proof.
  revert x j. induction n as [|n IH]; intros x j Hg; [done|].
  simpl. rewrite Hg by lia. apply IH. intros a k Hk. apply Hg. lia.
Qed.

Lemma compute_inputs_spec n wv input w_iter in_iter v :
  w_iter + n ≤ length wv → in_iter + n ≤ length input →
  compute_inputs n wv input w_iter in_iter v =
    Some (foldl (λ a k, s_add a (s_mul (input !!! (in_iter + k)) (wv !!! (w_iter + k))))
                v (seq 0 n), w_iter + n).
Proof.
  revert w_iter in_iter v.
  induction n as [|n IH]; intros w_iter in_iter v Hw Hin.
  - simpl. by rewrite Nat.add_0_r.
  - destruct (lookup_lt_is_Some_2 input in_iter) as [x Hx]; [lia|].
    destruct (lookup_lt_is_Some_2 wv w_iter) as [wt Hwt]; [lia|].
    cbn [compute_inputs]. rewrite Hx, Hwt. simpl.
    rewrite IH by lia. rewrite foldl_seq_S.
    rewrite !Nat.add_0_r.
    rewrite (list_lookup_total_correct _ _ _ Hx), (list_lookup_total_correct _ _ _ Hwt).
    f_equal. f_equal; [|lia].
    apply foldl_ext_seq. intros a k _.
    by rewrite <- !Nat.add_succ_comm.
Qed.

Lemma compute_inputs_weighted_sum L input o :
  (o + 1) * (1 + in_size L) ≤ length (w L) → in_size L ≤ length input →
  compute_inputs (in_size L) (w L) input (S (bias_index L o)) 0
                 (w L !!! bias_index L o) =
    Some (weighted_sum L input o, bias_index L (S o)).
Proof.
  intros Hw Hin. unfold bias_index in *.
  rewrite compute_inputs_spec by lia.
  unfold weighted_sum. f_equal. f_equal; [|lia].
  apply foldl_ext_seq. intros a k _. unfold weight_index, bias_index.
  do 3 f_equal. lia.
Qed.

(** The outer loop in closed form: while it runs over the units
    [o0 .. o0+n-1] it overwrites exactly these cells of [output]. *)
Lemma compute_outputs_spec n L input f o0 output :
  transfer (tf L) = Some f →
  (o0 + n) * (1 + in_size L) ≤ length (w L) →
  in_size L ≤ length input →
  o0 + n ≤ length output →
  compute_outputs n L input (bias_index L o0) output o0 =
    Some (take o0 output
          ++ ((λ o, f (weighted_sum L input o)) <$> seq o0 n)
          ++ drop (o0 + n) output).
Proof.
  intros Hf. revert o0 output.
  induction n as [|n IH]; intros o0 output Hw Hin Hout.
  - simpl. by rewrite Nat.add_0_r, take_drop.
  - destruct (lookup_lt_is_Some_2 (w L) (bias_index L o0)) as [b Hb].
    { unfold bias_index. nia. }
    cbn [compute_outputs]. rewrite Hb. simpl.
    rewrite <- (list_lookup_total_correct _ _ _ Hb).
    rewrite compute_inputs_weighted_sum by nia. simpl.
    rewrite Hf. simpl.
    rewrite store_Some by lia. simpl.
    rewrite IH by (rewrite ?length_insert; nia).
    f_equal.
    rewrite (take_S_r _ _ (f (weighted_sum L input o0)))
      by (apply list_lookup_insert_eq; lia).
    rewrite take_insert_ge by lia.
    rewrite drop_insert_lt by lia.
    rewrite <- app_assoc. simpl.
    by replace (o0 + S n) with (S (o0 + n)) by lia.
Qed.

Lemma Layer_compute_closed L input output f :
  transfer (tf L) = Some f →
  out_size L * (1 + in_size L) ≤ length (w L) →
  in_size L ≤ length input →
  out_size L ≤ length output →
  Layer_compute L input output =
    Some (Layer_values f L input ++ drop (out_size L) output).
Proof.
  intros Hf Hw Hin Hout. unfold Layer_compute.
  change 0 with (bias_index L 0) at 1.
  by rewrite (compute_outputs_spec _ _ _ f) by (done || lia).
Qed.

End Layer_compute_facts.

Section Layer_train_facts.
Context {T : Type} `{Scalar T}.
Implicit Types (L : Layer T) (input output wv back target : list T).

Lemma sub_assign_Some wv it x :
  it < length wv →
  sub_assign wv it x = Some (<[it := s_sub (wv !!! it) x]> wv).
Proof.
  intros Hlt. unfold sub_assign.
  rewrite (list_lookup_lookup_total_lt wv it Hlt). simpl.
  by apply store_Some.
Qed.

Lemma train_seed_spec n input back j0 :
  j0 + n ≤ length input → j0 + n ≤ length back →
  train_seed n input back j0 j0 =
    Some (take j0 back ++ take n (drop j0 input) ++ drop (j0 + n) back).
Proof.
  revert back j0. induction n as [|n IH]; intros back j0 Hin Hback.
  - simpl. by rewrite Nat.add_0_r, take_drop.
  - destruct (lookup_lt_is_Some_2 input j0) as [x Hx]; [lia|].
    cbn [train_seed]. rewrite Hx. simpl.
    rewrite store_Some by lia. simpl.
    rewrite IH by (rewrite ?length_insert; lia). f_equal.
    rewrite (take_S_r _ _ x) by (apply list_lookup_insert_eq; lia).
    rewrite take_insert_ge by lia. rewrite drop_insert_lt by lia.
    rewrite <- app_assoc. simpl.
    rewrite (drop_S _ _ _ Hx). simpl.
    by replace (j0 + S n) with (S (j0 + n)) by lia.
Qed.

Lemma train_inputs_spec n rate delta input wv back wb j0 :
  wb + j0 + n ≤ length wv → j0 + n ≤ length input → j0 + n ≤ length back →
  ∃ wv' back',
    train_inputs n rate delta input wv back (wb + j0) j0 j0
      = Some (wv', back', wb + j0 + n) ∧
    length wv' = length wv ∧ length back' = length back ∧
    (∀ k, j0 ≤ k < j0 + n →
       wv' !!! (wb + k) =
         s_sub (wv !!! (wb + k)) (s_mul (s_mul rate delta) (input !!! k))) ∧
    (∀ idx, ¬ (wb + j0 ≤ idx < wb + j0 + n) → wv' !!! idx = wv !!! idx) ∧
    (∀ k, j0 ≤ k < j0 + n →
       back' !!! k =
         s_sub (back !!! k)
               (s_mul delta (s_sub (wv !!! (wb + k))
                                   (s_mul (s_mul rate delta) (input !!! k))))) ∧
    (∀ k, ¬ (j0 ≤ k < j0 + n) → back' !!! k = back !!! k).
Proof.
  revert wv back j0. induction n as [|n IH]; intros wv back j0 Hw Hin Hback.
  - exists wv, back. simpl. rewrite Nat.add_0_r.
    split_and!; try done; intros; lia.
  - set (x := input !!! j0).
    set (wt := s_sub (wv !!! (wb + j0)) (s_mul (s_mul rate delta) x)).
    set (wv1 := <[wb + j0 := wt]> wv).
    set (back1 := <[j0 := s_sub (back !!! j0) (s_mul delta wt)]> back).
    destruct (IH wv1 back1 (S j0)) as (wv' & back' & Hrun & Hlw & Hlb & Hw1 & Hw2 & Hb1 & Hb2).
    { subst wv1. rewrite length_insert. lia. }
    { lia. }
    { subst back1. rewrite length_insert. lia. }
    exists wv', back'. split_and!.
    + cbn [train_inputs].
      rewrite (list_lookup_lookup_total_lt input j0) by lia. simpl.
      rewrite sub_assign_Some by lia. simpl. fold x wt wv1.
      assert (Hwt : wv1 !! (wb + j0) = Some wt).
      { subst wv1. apply list_lookup_insert_eq. lia. }
      rewrite Hwt. simpl.
      rewrite sub_assign_Some by lia. simpl. fold back1.
      replace (S (wb + j0)) with (wb + S j0) by lia.
      rewrite Hrun. do 2 f_equal. lia.
    + rewrite Hlw. subst wv1. apply length_insert.
    + rewrite Hlb. subst back1. apply length_insert.
    + intros k Hk. destruct (decide (k = j0)) as [->|Hne].
      * rewrite Hw2 by lia. subst wv1.
        rewrite list_lookup_total_insert_eq by lia. done.
      * rewrite Hw1 by lia. subst wv1.
        rewrite list_lookup_total_insert_ne by lia. done.
    + intros idx Hidx. rewrite Hw2 by lia. subst wv1.
      rewrite list_lookup_total_insert_ne by lia. done.
    + intros k Hk. destruct (decide (k = j0)) as [->|Hne].
      * rewrite Hb2 by lia. subst back1.
        rewrite list_lookup_total_insert_eq by lia. done.
      * rewrite Hb1 by lia. subst back1 wv1.
        rewrite !list_lookup_total_insert_ne by lia. done.
    + intros k Hk. rewrite Hb2 by lia. subst back1.
      rewrite list_lookup_total_insert_ne by lia. done.
Qed.

Lemma bias_index_S L o : bias_index L (S o) = S (bias_index L o) + in_size L.
Proof. unfold bias_index. lia. Qed.

Lemma weight_index_bias L i o : weight_index L i o = S (bias_index L o) + i.
Proof. unfold weight_index, bias_index. lia. Qed.

Lemma bias_index_mono L o o' : o ≤ o' → bias_index L o ≤ bias_index L o'.
Proof. unfold bias_index. nia. Qed.

Lemma train_outputs_spec n L rate d input output target wv back o0 :
  derivative (tf L) = Some d →
  (o0 + n) * (1 + in_size L) ≤ length wv →
  in_size L ≤ length input → in_size L ≤ length back →
  o0 + n ≤ length output → o0 + n ≤ length target →
  ∃ wv' back',
    train_outputs n L rate input output target wv back (bias_index L o0) o0 o0
      = Some (wv', back') ∧
    length wv' = length wv ∧ length back' = length back ∧
    (∀ o, o0 ≤ o < o0 + n →
       wv' !!! bias_index L o =
         s_sub (wv !!! bias_index L o) (s_mul rate (delta_of d output target o))) ∧
    (∀ i o, i < in_size L → o0 ≤ o < o0 + n →
       wv' !!! weight_index L i o =
         s_sub (wv !!! weight_index L i o)
               (s_mul (s_mul rate (delta_of d output target o)) (input !!! i))) ∧
    (∀ idx, ¬ (bias_index L o0 ≤ idx < bias_index L (o0 + n)) →
       wv' !!! idx = wv !!! idx) ∧
    (∀ i, i < in_size L →
       back' !!! i =
         foldl (λ acc o,
                  s_sub acc
                    (s_mul (delta_of d output target o)
                       (s_sub (wv !!! weight_index L i o)
                          (s_mul (s_mul rate (delta_of d output target o))
                                 (input !!! i)))))
               (back !!! i) (seq o0 n)) ∧
    (∀ i, in_size L ≤ i → back' !!! i = back !!! i).
Proof.
  intros Hd. revert wv back o0.
  induction n as [|n IH]; intros wv back o0 Hw Hin Hback Hout Htgt.
  - exists wv, back. simpl. split_and!; try done; intros; lia.
  - set (delta := delta_of d output target o0).
    set (wv1 := <[bias_index L o0 :=
                   s_sub (wv !!! bias_index L o0) (s_mul rate delta)]> wv).
    assert (Hb0 : bias_index L o0 + in_size L < length wv).
    { unfold bias_index. nia. }
    destruct (train_inputs_spec (in_size L) rate delta input wv1 back
                (S (bias_index L o0)) 0)
      as (wv2 & back1 & Hrun & Hlw2 & Hlb1 & Hw2a & Hw2b & Hb1a & Hb1b).
    { subst wv1. rewrite length_insert. lia. }
    { lia. }
    { lia. }
    assert (Hlw1 : length wv1 = length wv) by (subst wv1; apply length_insert).
    destruct (IH wv2 back1 (S o0))
      as (wv' & back' & Hrun' & Hlw' & Hlb' & Hbias & Hwt & Hrest & Hbk & Hbk');
      try lia.
    exists wv', back'. split_and!.
    + cbn [train_outputs]. rewrite Hd. simpl.
      rewrite (list_lookup_lookup_total_lt output o0) by lia. simpl.
      rewrite (list_lookup_lookup_total_lt target o0) by lia. simpl.
      change (s_mul (d (output !!! o0)) (s_sub (output !!! o0) (target !!! o0)))
        with delta.
      rewrite sub_assign_Some by lia. simpl. fold wv1.
      rewrite Nat.add_0_r in Hrun. rewrite Hrun. simpl.
      rewrite bias_index_S in Hrun'. exact Hrun'.
    + lia.
    + lia.
    + intros o Ho. destruct (decide (o = o0)) as [->|Hne].
      * rewrite Hrest by (rewrite bias_index_S; lia).
        rewrite Hw2b by lia. subst wv1.
        by rewrite list_lookup_total_insert_eq by lia.
      * rewrite Hbias by lia.
        assert (bias_index L (S o0) ≤ bias_index L o) by (apply bias_index_mono; lia).
        rewrite bias_index_S in *.
        rewrite Hw2b by lia. subst wv1.
        by rewrite list_lookup_total_insert_ne by lia.
    + intros i o Hi Ho. destruct (decide (o = o0)) as [->|Hne].
      * rewrite Hrest by (rewrite weight_index_bias, bias_index_S; lia).
        rewrite weight_index_bias. rewrite Hw2a by lia. subst wv1.
        by rewrite list_lookup_total_insert_ne by lia.
      * rewrite Hwt by lia.
        assert (bias_index L (S o0) ≤ bias_index L o) by (apply bias_index_mono; lia).
        rewrite weight_index_bias, bias_index_S in *.
        rewrite Hw2b by lia. subst wv1.
        by rewrite list_lookup_total_insert_ne by lia.
    + intros idx Hidx.
      replace (o0 + S n) with (S o0 + n) in Hidx by lia.
      assert (bias_index L (S o0) ≤ bias_index L (S o0 + n)) by (apply bias_index_mono; lia).
      rewrite bias_index_S in *.
      rewrite Hrest by lia.
      rewrite Hw2b by lia. subst wv1.
      by rewrite list_lookup_total_insert_ne by lia.
    + intros i Hi. rewrite Hbk by done. cbn [seq foldl].
      rewrite Hb1a by lia.
      rewrite <- weight_index_bias. subst wv1.
      rewrite list_lookup_total_insert_ne
        by (rewrite weight_index_bias; lia).
      fold delta.
      apply foldl_ext_seq. intros acc o Ho. do 3 f_equal.
      assert (bias_index L (S o0) ≤ bias_index L o) by (apply bias_index_mono; lia).
      rewrite weight_index_bias, bias_index_S in *.
      rewrite Hw2b by lia.
      by rewrite list_lookup_total_insert_ne by lia.
    + intros i Hi. rewrite Hbk' by done. by rewrite Hb1b by lia.
Qed.

Lemma train_seed_0 input back n :
  n ≤ length input → n ≤ length back →
  train_seed n input back 0 0 = Some (take n input ++ drop n back).
Proof. intros Hin Hback. by rewrite train_seed_spec by lia. Qed.

(** Everything one call of [Layer::train] does, cell by cell. *)
Lemma Layer_train_spec L rate d input output target back :
  derivative (tf L) = Some d →
  out_size L * (1 + in_size L) ≤ length (w L) →
  in_size L ≤ length input → in_size L ≤ length back →
  out_size L ≤ length output → out_size L ≤ length target →
  ∃ L' back',
    Layer_train L rate input output target back = Some (L', back') ∧
    in_size L' = in_size L ∧ out_size L' = out_size L ∧ tf L' = tf L ∧
    length (w L') = length (w L) ∧ length back' = length back ∧
    (∀ o, o < out_size L →
       w L' !!! bias_index L o = bias_updated L rate d output target o) ∧
    (∀ i o, i < in_size L → o < out_size L →
       w L' !!! weight_index L i o =
         weight_updated L rate d input output target i o) ∧
    (∀ idx, bias_index L (out_size L) ≤ idx → w L' !!! idx = w L !!! idx) ∧
    (∀ i, i < in_size L →
       back' !!! i = back_signal_post L rate d input output target i) ∧
    (∀ i, in_size L ≤ i → back' !!! i = back !!! i).
Proof.
  intros Hd Hw Hin Hback Hout Htgt.
  set (back0 := take (in_size L) input ++ drop (in_size L) back).
  assert (Hlb0 : length back0 = length back).
  { subst back0. rewrite length_app, length_take, length_drop. lia. }
  destruct (train_outputs_spec (out_size L) L rate d input output target
              (w L) back0 0)
    as (wv' & back' & Hrun & Hlw & Hlb & Hbias & Hwt & Hrest & Hbk & Hbk');
    try (done || lia).
  exists (with_w L wv'), back'. split_and!; try done.
  - unfold Layer_train. rewrite train_seed_0 by lia. simpl. fold back0.
    change (bias_index L 0) with 0 in Hrun. by rewrite Hrun.
  - lia.
  - intros o Ho. simpl. by rewrite Hbias by lia.
  - intros i o Hi Ho. simpl. by rewrite Hwt by lia.
  - intros idx Hidx. simpl. apply Hrest. simpl. lia.
  - intros i Hi. rewrite Hbk by done.
    unfold back_signal_post, back_sum. f_equal.
    subst back0. rewrite lookup_total_app_l by (rewrite length_take; lia).
    by rewrite lookup_total_take_lt by lia.
  - intros i Hi. rewrite Hbk' by done. subst back0.
    rewrite lookup_total_app_r by (rewrite length_take; lia).
    rewrite length_take, lookup_total_drop. f_equal. lia.
Qed.

End Layer_train_facts.

(** ** The layer kernel *)

Section Layer_properties.
Context {T : Type} `{Scalar T}.
Implicit Types (L : Layer T) (input output wv back target : list T).

Lemma sub_assign_length wv it x wv' :
  sub_assign wv it x = Some wv' → length wv' = length wv.
Proof.
  unfold sub_assign. destruct (wv !! it); simpl; [|done]. apply store_length.
Qed.

Lemma train_inputs_length n rate delta input wv back w_iter in_iter back_iter
    wv' back' w_iter' :
  train_inputs n rate delta input wv back w_iter in_iter back_iter
    = Some (wv', back', w_iter') →
  length wv' = length wv.
Proof.
  revert wv back w_iter in_iter back_iter.
  induction n as [|n IH]; intros wv back w_iter in_iter back_iter; simpl.
  - by intros [= <- _ _].
  - destruct (input !! in_iter); simpl; [|done].
    destruct (sub_assign wv w_iter _) as [wv1|] eqn:Hwv1; simpl; [|done].
    destruct (wv1 !! w_iter); simpl; [|done].
    destruct (sub_assign back back_iter _) as [back1|]; simpl; [|done].
    intros Hrun. rewrite (IH _ _ _ _ _ Hrun). by eapply sub_assign_length.
Qed.

Lemma train_outputs_length n L rate input output target wv back
    w_iter out_iter target_iter wv' back' :
  train_outputs n L rate input output target wv back w_iter out_iter target_iter
    = Some (wv', back') →
  length wv' = length wv.
Proof.
  revert wv back w_iter out_iter target_iter.
  induction n as [|n IH]; intros wv back w_iter out_iter target_iter; simpl.
  - by intros [= <- _].
  - destruct (derivative (tf L)); simpl; [|done].
    destruct (output !! out_iter); simpl; [|done].
    destruct (target !! target_iter); simpl; [|done].
    destruct (sub_assign wv w_iter _) as [wv1|] eqn:Hwv1; simpl; [|done].
    destruct (train_inputs _ _ _ _ _ _ _ _ _) as [[[wv2 back1] w_iter1]|] eqn:Hin;
      simpl; [|done].
    intros Hrun. rewrite (IH _ _ _ _ _ Hrun).
    rewrite (train_inputs_length _ _ _ _ _ _ _ _ _ _ _ _ Hin).
    by eapply sub_assign_length.
Qed.

(** A call of [train] that returns keeps the topology, the transfer
    function and the number of weights, whatever ranges it was given. *)
Lemma Layer_train_shape L rate input output target back L' back' :
  Layer_train L rate input output target back = Some (L', back') →
  in_size L' = in_size L ∧ out_size L' = out_size L ∧ tf L' = tf L ∧
  length (w L') = length (w L).
Proof.
  unfold Layer_train.
  destruct (train_seed _ _ _ _ _) as [back0|]; simpl; [|done].
  destruct (train_outputs _ _ _ _ _ _ _ _ _ _ _) as [[wv back1]|] eqn:Hout;
    simpl; [|done].
  intros [= <- _]. simpl. split_and!; try done.
  by eapply train_outputs_length.
Qed.

Lemma Layer_call_shape L c L' :
  Layer_call L c = Some L' →
  in_size L' = in_size L ∧ out_size L' = out_size L ∧
  length (w L') = length (w L).
Proof.
  destruct c as [input output|rate input output target back]; simpl.
  - destruct (Layer_compute L input output); simpl; [|done]. by intros [= <-].
  - destruct (Layer_train L rate input output target back) as [[L1 back1]|] eqn:Htr;
      simpl; [|done].
    intros [= <-]. apply Layer_train_shape in Htr. tauto.
Qed.

(** C3.  For a layer with [I] inputs and [O] outputs whose weight store has
    its [(I+1)*O] entries, an input range of at least [I] cells and an
    output range of at least [O] cells, [Layer::compute] returns; after
    [n] rounds of its loop the cells [0 .. n-1] of the output hold
    [transfer (bias(o) + input[0]*weight(0,o) + ... )] and the others are
    untouched, so at the end every [output[o]], [o < O], holds that value.
    The layer and the input are passed by value and are not part of the
    result: a second call on the same layer and input writes the same
    values again, and the client holds the same layer after the call. *)
Theorem Layer_compute_correct L input output f :
  length (w L) = (in_size L + 1) * out_size L →
  in_size L ≤ length input →
  out_size L ≤ length output →
  transfer (tf L) = Some f →
  ∃ output',
    Layer_compute L input output = Some output' ∧
    (∀ n, n ≤ out_size L →
       compute_outputs n L input 0 output 0 =
         Some (((λ o, f (weighted_sum L input o)) <$> seq 0 n) ++ drop n output)) ∧
    length output' = length output ∧
    (∀ o, o < out_size L → output' !! o = Some (f (weighted_sum L input o))) ∧
    (∀ o, out_size L ≤ o → output' !! o = output !! o) ∧
    Layer_compute L input output' = Some output' ∧
    Layer_call L (CallCompute input output) = Some L.
Proof.
  intros Hw Hin Hout Hf.
  exists (Layer_values f L input ++ drop (out_size L) output).
  assert (Hlv : length (Layer_values f L input) = out_size L).
  { unfold Layer_values. by rewrite length_fmap, length_seq. }
  split_and!.
  - apply Layer_compute_closed; (done || lia).
  - intros n Hn. change 0 with (bias_index L 0) at 1.
    rewrite (compute_outputs_spec n L input f 0 output) by (done || nia).
    by rewrite take_0.
  - rewrite length_app, length_drop, Hlv. lia.
  - intros o Ho. rewrite lookup_app_l by lia.
    unfold Layer_values. rewrite list_lookup_fmap, lookup_seq_lt by done.
    done.
  - intros o Ho. rewrite lookup_app_r by lia.
    rewrite lookup_drop, Hlv. f_equal. lia.
  - rewrite (Layer_compute_closed L input _ f); try (done || lia).
    + by rewrite drop_app_length'.
    + rewrite length_app, length_drop, Hlv. lia.
  - simpl. rewrite (Layer_compute_closed L input output f); (done || lia).
Qed.

(** C4.  In a call [train(rate, input, output, target, back)] on ranges that
    are long enough, the seeding loop runs first and leaves [back0] with
    [back0[i] = input[i]] for [i < in_size]; the loop over the output units
    then starts from [back0].  With [delta_o = derivative(output[o]) *
    (output[o] - target[o])], the call leaves [bias(o)] decreased by
    [rate * delta_o] and [weight(i,o)] decreased by
    [rate * delta_o * input[i]]. *)
Theorem Layer_train_updates L rate d input output target back :
  derivative (tf L) = Some d →
  train_ranges_ok L input output target back →
  ∃ back0 L' back',
    train_seed (in_size L) input back 0 0 = Some back0 ∧
    (∀ i, i < in_size L → back0 !! i = input !! i) ∧
    train_outputs (out_size L) L rate input output target (w L) back0 0 0 0
      = Some (w L', back') ∧
    Layer_train L rate input output target back = Some (L', back') ∧
    (∀ o, o < out_size L →
       ∃ y t, output !! o = Some y ∧ target !! o = Some t ∧
              delta_of d output target o = s_mul (d y) (s_sub y t)) ∧
    (∀ o, o < out_size L →
       ∃ b, bias L o = Some b ∧
            bias L' o = Some (s_sub b (s_mul rate (delta_of d output target o)))) ∧
    (∀ i o, i < in_size L → o < out_size L →
       ∃ x wt, input !! i = Some x ∧ weight L i o = Some wt ∧
               weight L' i o =
                 Some (s_sub wt (s_mul (s_mul rate (delta_of d output target o)) x))).
Proof.
  intros Hd (Hw & Hin & Hback & Hout & Htgt).
  destruct (Layer_train_spec L rate d input output target back)
    as (L' & back' & Hrun & HI & HO & Htf & Hlw & Hlb & Hbias & Hwt & _);
    try (done || lia).
  exists (take (in_size L) input ++ drop (in_size L) back), L', back'.
  assert (Hidx : ∀ i o, i < in_size L → o < out_size L →
            bias_index L o < length (w L) ∧ weight_index L i o < length (w L)).
  { intros i o Hi Ho. unfold weight_index, bias_index. nia. }
  split_and!.
  - by apply train_seed_0.
  - intros i Hi. rewrite lookup_app_l by (rewrite length_take; lia).
    by rewrite lookup_take_lt.
  - revert Hrun. unfold Layer_train. rewrite train_seed_0 by lia. simpl.
    destruct (train_outputs _ _ _ _ _ _ _ _ _ _ _) as [[wv bk]|]; simpl; [|done].
    by intros [= <- <-].
  - done.
  - intros o Ho. exists (output !!! o), (target !!! o). split_and!.
    + apply list_lookup_lookup_total_lt. lia.
    + apply list_lookup_lookup_total_lt. lia.
    + done.
  - intros o Ho. exists (w L !!! bias_index L o).
    assert (Hb : bias_index L o < length (w L)).
    { unfold bias_index. nia. }
    unfold bias. split.
    + by apply list_lookup_lookup_total_lt.
    + unfold bias_index in *. rewrite HI.
      rewrite list_lookup_lookup_total_lt by lia.
      f_equal. apply (Hbias o Ho).
  - intros i o Hi Ho. exists (input !!! i), (w L !!! weight_index L i o).
    destruct (Hidx i o Hi Ho) as [_ Hwi]. unfold weight. split_and!.
    + apply list_lookup_lookup_total_lt. lia.
    + by apply list_lookup_lookup_total_lt.
    + unfold weight_index in *. rewrite HI.
      rewrite list_lookup_lookup_total_lt by lia.
      f_equal. apply (Hwt i o Hi Ho).
Qed.

(** What the inner loop of [train] leaves in [back], as the code is written.
    On ranges that are long enough, [weight(i,o)] is first decreased by
    [rate * delta_o * input[i]] and the back signal then subtracts
    [delta_o] times the weight read after that update, so after the call
    [back[i] = input[i] - sum over o of delta_o * w_post(i,o)], where
    [w_post(i,o) = w_pre(i,o) - rate * delta_o * input[i]] is also the
    value of [weight(i,o)] after the call. *)
Lemma Layer_train_back_signal L rate d input output target back :
  derivative (tf L) = Some d →
  train_ranges_ok L input output target back →
  ∃ L' back',
    Layer_train L rate input output target back = Some (L', back') ∧
    ∀ i, i < in_size L →
      (∀ o, o < out_size L →
         weight L' i o = Some (weight_updated L rate d input output target i o)) ∧
      back' !! i =
        Some (back_sum L d input output target
                (weight_updated L rate d input output target) i).
Proof.
  intros Hd (Hw & Hin & Hback & Hout & Htgt).
  destruct (Layer_train_spec L rate d input output target back)
    as (L' & back' & Hrun & HI & HO & Htf & Hlw & Hlb & _ & Hwt & _ & Hbk & _);
    try (done || lia).
  exists L', back'. split; [done|]. intros i Hi. split.
  - intros o Ho. unfold weight.
    assert (weight_index L i o < length (w L)).
    { unfold weight_index. nia. }
    unfold weight_index in *. rewrite HI.
    rewrite list_lookup_lookup_total_lt by lia.
    f_equal. apply (Hwt i o Hi Ho).
  - rewrite list_lookup_lookup_total_lt by lia. f_equal. by apply Hbk.
Qed.

(** C5 (as the code has it).  A layer constructed with [I] inputs and [O]
    outputs such that [(I+1)*O] fits [size_type] has [(I+1)*O] weights, and
    so has the layer after any sequence of [compute] and [train] calls
    that return; on it [bias(o)] is the cell [o*(I+1)] and [weight(i,o)]
    the cell [o*(I+1)+i+1], which for [i < I] and [o < O] are cells of the
    store, and different accessors address different cells. *)
Theorem Layer_shape_invariant (I O : nat) (t : TransferFunction T)
    (cs : list (LayerCall T)) L' :
  size_fits ((I + 1) * O) →
  Layer_calls (Layer_new I O t) cs = Some L' →
  length (w (Layer_new I O t)) = (I + 1) * O ∧
  in_size L' = I ∧ out_size L' = O ∧ length (w L') = (I + 1) * O ∧
  ∀ i o, i < I → o < O →
    bias L' o = w L' !! (o * (I + 1)) ∧
    weight L' i o = w L' !! (o * (I + 1) + i + 1) ∧
    bias_index L' o < length (w L') ∧
    weight_index L' i o < length (w L') ∧
    is_Some (bias L' o) ∧ is_Some (weight L' i o) ∧
    ∀ i' o', i' < I → o' < O →
      bias_index L' o ≠ weight_index L' i' o' ∧
      (bias_index L' o = bias_index L' o' → o = o') ∧
      (weight_index L' i o = weight_index L' i' o' → i = i' ∧ o = o').
Proof.
  intros Hfit.
  assert (Hnew : length (w (Layer_new I O t)) = (I + 1) * O).
  { simpl. rewrite length_replicate. by apply size_new_fits. }
  assert (Hinv : ∀ L, Layer_calls L cs = Some L' →
            in_size L' = in_size L ∧ out_size L' = out_size L ∧
            length (w L') = length (w L)).
  { induction cs as [|c cs IH]; intros L; simpl.
    - by intros [= <-].
    - destruct (Layer_call L c) as [L1|] eqn:Hc; simpl; [|done].
      intros Hrun. apply IH in Hrun. apply Layer_call_shape in Hc.
      destruct Hrun as (-> & -> & ->). done. }
  intros Hrun. destruct (Hinv _ Hrun) as (HI & HO & Hlen).
  simpl in HI, HO. rewrite Hnew in Hlen.
  split_and!; try done.
  intros i o Hi Ho.
  assert (Hb : bias_index L' o < length (w L')).
  { unfold bias_index. rewrite HI, Hlen. nia. }
  assert (Hwi : weight_index L' i o < length (w L')).
  { unfold weight_index. rewrite HI, Hlen. nia. }
  split_and!; try done.
  - unfold bias, bias_index. rewrite HI. f_equal. lia.
  - unfold weight, weight_index. rewrite HI. f_equal. lia.
  - unfold bias. by apply lookup_lt_is_Some_2.
  - unfold weight. by apply lookup_lt_is_Some_2.
  - intros i' o' Hi' Ho'. unfold bias_index, weight_index. rewrite HI.
    split_and!.
    + intros Heq. destruct (decide (o ≤ o')); nia.
    + intros Heq. nia.
    + intros Heq.
      assert (o = o') as ->.
      { destruct (decide (o < o')); [nia|]. destruct (decide (o' < o)); [nia|]. lia. }
      lia.
Qed.

(** C9.  The transfer function of the Heaviside preset is present and
    returns 1 at 0 and at every [x] with [x >= 0], and 0 at every [x] with
    [x < 0]. *)
Theorem Heaviside_transfer_step `{!ScalarOrder T} :
  ∃ f : T → T,
    transfer Heaviside = Some f ∧
    f s_zero = s_one ∧
    (∀ x, s_geb x s_zero = true → f x = s_one) ∧
    (∀ x, s_ltb x s_zero = true → f x = s_zero).
Proof.
  eexists. split; [reflexivity|]. simpl. split_and!.
  - by rewrite s_geb_zero.
  - by intros x ->.
  - intros x Hx. by rewrite (s_ltb_not_geb _ _ Hx).
Qed.

End Layer_properties.

(** ** Network::compute *)

Section Network_compute_facts.
Context {T : Type} `{Scalar T}.
Implicit Types (L : Layer T) (N : Network T) (ls mid : list (Layer T)).
Implicit Types (input output v : list T) (buffer : ComputeBuffer T).

Lemma grow_length s (c : list T) : length (grow s c) = max (length c) s.
Proof.
  unfold grow. case_decide; [rewrite length_resize|]; lia.
Qed.

Lemma grow_take s (c : list T) : take (length c) (grow s c) = c.
Proof.
  unfold grow. case_decide; [|by rewrite firstn_all].
  rewrite resize_ge by lia. by rewrite take_app_length.
Qed.

Lemma weighted_sum_take L input o :
  weighted_sum L (take (in_size L) input) o = weighted_sum L input o.
Proof.
  unfold weighted_sum. apply foldl_ext_seq. intros a k Hk.
  by rewrite lookup_total_take_lt by lia.
Qed.

Lemma Layer_apply_take L input :
  Layer_apply L (take (in_size L) input) = Layer_apply L input.
Proof.
  unfold Layer_apply. destruct (transfer (tf L)) as [f|]; [|done].
  unfold Layer_values. apply list_fmap_ext. intros _ o _.
  by rewrite weighted_sum_take.
Qed.

Lemma Layer_apply_length L input :
  Layer_wf L → length (Layer_apply L input) = out_size L.
Proof.
  intros [_ [f Hf]]. unfold Layer_apply, Layer_values. rewrite Hf.
  by rewrite length_fmap, length_seq.
Qed.

(** [Layer::compute] as a value: the activations, then what the output
    range held beyond them. *)
Lemma Layer_compute_apply L input output :
  Layer_wf L → in_size L ≤ length input → out_size L ≤ length output →
  Layer_compute L input output =
    Some (Layer_apply L input ++ drop (out_size L) output).
Proof.
  intros [Hw [f Hf]] Hin Hout. unfold Layer_apply. rewrite Hf.
  apply Layer_compute_closed; (done || lia).
Qed.

(** Reading a prefix [v] of a longer range gives the activations of [v]. *)
Lemma Layer_compute_prefix L src v output :
  Layer_wf L → take (in_size L) src = v → length v = in_size L →
  out_size L ≤ length output →
  Layer_compute L src output =
    Some (Layer_apply L v ++ drop (out_size L) output).
Proof.
  intros Hwf Hv Hlen Hout.
  assert (in_size L ≤ length src).
  { rewrite <- Hv, length_take in Hlen. lia. }
  rewrite Layer_compute_apply by done.
  by rewrite <- Hv, Layer_apply_take.
Qed.

Lemma take_apply_app L v (rest : list T) :
  Layer_wf L → take (out_size L) (Layer_apply L v ++ rest) = Layer_apply L v.
Proof.
  intros Hwf. apply take_app_length'. by rewrite Layer_apply_length.
Qed.

Lemma out_of_cons prev L ls : out_of prev (L :: ls) = out_of (out_size L) ls.
Proof. done. Qed.

Lemma out_of_snoc prev ls L : out_of prev (ls ++ [L]) = out_size L.
Proof. unfold out_of. by rewrite foldl_app. Qed.

Lemma chained_snoc prev ls L :
  chained prev (ls ++ [L]) ↔ chained prev ls ∧ in_size L = out_of prev ls.
Proof.
  revert prev. induction ls as [|L0 ls IH]; intros prev; simpl.
  - unfold out_of. simpl. tauto.
  - rewrite IH. tauto.
Qed.

Lemma feed_length prev ls v :
  Forall Layer_wf ls → length v = prev → length (feed ls v) = out_of prev ls.
Proof.
  intros Hwf. revert prev v.
  induction Hwf as [|L ls HL Hls IH]; intros prev v Hv; [done|].
  rewrite out_of_cons. change (feed (L :: ls) v) with (feed ls (Layer_apply L v)).
  apply IH. by apply Layer_apply_length.
Qed.

Lemma list_pair_ind {X} (P : list X → Prop) :
  P [] → (∀ x, P [x]) → (∀ x y xs, P xs → P (x :: y :: xs)) → ∀ xs, P xs.
Proof.
  intros Hnil Hone Hstep xs.
  cut (P xs ∧ ∀ x, P (x :: xs)); [tauto|].
  induction xs as [|y xs [IH1 IH2]]; split; auto.
Qed.

(** One round of the ping-pong: the layer reads the prefix [v] of [src] and
    writes into [dst] grown to its output size. *)
Lemma Layer_compute_grow L src v (dst : list T) :
  Layer_wf L → take (in_size L) src = v → length v = in_size L →
  ∃ dst', Layer_compute L src (grow (out_size L) dst) = Some dst' ∧
          take (out_size L) dst' = Layer_apply L v.
Proof.
  intros Hwf Hv Hlen. eexists. split.
  - apply Layer_compute_prefix; try done. rewrite grow_length. lia.
  - by apply take_apply_app.
Qed.

(** The loop leaves, in the container [b_iter] points into, the
    activations of the last layer it ran. *)
Lemma compute_loop_spec mid :
  ∀ buffer v prev,
    Forall Layer_wf mid → chained prev mid →
    take prev (A buffer) = v → length v = prev →
    ∃ side buffer',
      compute_loop mid buffer = Some (side, buffer') ∧
      take (out_of prev mid) (side_begin side buffer') = feed mid v.
Proof.
  pattern mid. apply list_pair_ind; clear mid.
  - intros buffer v prev Hwf Hch Hv Hlen. exists SideA, buffer. done.
  - intros L1 buffer v prev Hwf Hch Hv Hlen.
    apply Forall_cons_1 in Hwf as [Hwf1 _]. destruct Hch as [Hin1 _].
    destruct (Layer_compute_grow L1 (A buffer) v (B buffer))
      as (b & Hb & Htake); try (done || congruence).
    eexists SideB, _. split.
    + cbn [compute_loop]. unfold beginB, outputs. cbn [A B]. rewrite Hb. done.
    + done.
  - intros L1 L2 mid2 IH buffer v prev Hwf Hch Hv Hlen.
    apply Forall_cons_1 in Hwf as [Hwf1 Hwf].
    apply Forall_cons_1 in Hwf as [Hwf2 Hwf].
    destruct Hch as (Hin1 & Hin2 & Hch).
    destruct (Layer_compute_grow L1 (A buffer) v (B buffer))
      as (b & Hb & Htakeb); try (done || congruence).
    destruct (Layer_compute_grow L2 b (Layer_apply L1 v) (A buffer))
      as (a & Ha & Htakea); try (done || congruence).
    { by rewrite Layer_apply_length. }
    destruct (IH {| A := a; B := b |} (Layer_apply L2 (Layer_apply L1 v))
                 (out_size L2))
      as (side & buffer' & Hrun & Htake); try done.
    { by apply Layer_apply_length. }
    exists side, buffer'. split.
    + cbn [compute_loop]. unfold beginB, beginA, set_A, set_B, outputs.
      cbn [A B]. rewrite Hb. cbn [mbind option_bind]. rewrite Ha. done.
    + done.
Qed.

Lemma compose_layers_feed ls :
  ∀ prev input output,
    ls ≠ [] → Forall Layer_wf ls → chained prev ls →
    prev ≤ length input → out_of prev ls ≤ length output →
    compose_layers ls input output =
      Some (feed ls input ++ drop (out_of prev ls) output).
Proof.
  induction ls as [|L ls IH]; intros prev input output Hne Hwf Hch Hin Hout;
    [done|].
  apply Forall_cons_1 in Hwf as [HL Hwf]. destruct Hch as [HinL Hch].
  destruct ls as [|L2 ls].
  - simpl. apply Layer_compute_apply; try done. lia.
  - change (compose_layers (L :: L2 :: ls) input output)
      with (mid ← Layer_compute L input (replicate (out_size L) s_zero);
            compose_layers (L2 :: ls) mid output).
    rewrite Layer_compute_apply; try (done || lia).
    2: { by rewrite length_replicate. }
    cbn [mbind option_bind].
    rewrite drop_ge by (by rewrite length_replicate).
    rewrite app_nil_r.
    rewrite (IH (out_size L)); try done.
    by rewrite Layer_apply_length.
Qed.

(** [Network::compute] as a value: it returns, and what it writes to the
    caller's output are the activations of the chain on the input. *)
Lemma Network_compute_feed N n_in input output buffer :
  Network_wf n_in N → n_in ≤ length input →
  out_of n_in (l N) ≤ length output →
  ∃ buffer',
    Network_compute N input output buffer =
      Some (feed (l N) (take n_in input) ++ drop (out_of n_in (l N)) output,
            buffer').
Proof.
  intros (Hne & Hwf & Hch) Hin Hout. unfold Network_compute.
  destruct (l N) as [|l_first rest]; [done|].
  apply Forall_cons_1 in Hwf as [Hwf1 Hwf]. destruct Hch as [Hin1 Hch].
  subst n_in.
  destruct rest as [|L2 rest2].
  - exists buffer. rewrite Layer_compute_apply by done. simpl.
    by rewrite Layer_apply_take.
  - set (rest := L2 :: rest2) in *.
    assert (Hrest : rest = removelast rest ++ [List.last rest l_first]).
    { by apply app_removelast_last. }
    set (mid := removelast rest) in *. set (l_last := List.last rest l_first) in *.
    rewrite Hrest in Hwf, Hch, Hout |- *.
    apply Forall_app in Hwf as [Hwfm Hwfl].
    apply Forall_cons_1 in Hwfl as [Hwfl _].
    apply chained_snoc in Hch as [Hchm Hinl].
    rewrite out_of_cons, out_of_snoc in Hout.
    destruct (Layer_compute_grow l_first input (take (in_size l_first) input)
                (A buffer)) as (a & Ha & Htakea); try done.
    { rewrite length_take. lia. }
    destruct (compute_loop_spec mid (set_A (beginA (outputs l_first) buffer) a)
                (Layer_apply l_first (take (in_size l_first) input))
                (out_size l_first))
      as (side & buffer' & Hrun & Htake); try done.
    { by apply Layer_apply_length. }
    exists buffer'.
    unfold beginA, outputs in *. cbn [A B] in *.
    rewrite Ha. cbn [mbind option_bind]. rewrite Hrun. cbn [mbind option_bind].
    rewrite (Layer_compute_prefix l_last _
               (feed mid (Layer_apply l_first (take (in_size l_first) input))));
      try done.
    + cbn [mbind option_bind]. do 2 f_equal.
      rewrite out_of_cons, out_of_snoc.
      unfold feed. simpl. rewrite foldl_app. done.
    + by rewrite Hinl.
    + rewrite Hinl. apply feed_length; [done|]. by apply Layer_apply_length.
Qed.

(** C6.  For a well-formed network (at least one layer, every layer with
    its weights and transfer function, sizes chained), an input of at least
    the input size and an output range of at least the output size,
    [Network::compute] returns and writes what the layers write when they
    are composed one after the other through fresh intermediate buffers,
    the first reading the input and the last writing into the output; for
    two layers that is [Layer0::compute] into one buffer, then
    [Layer1::compute] from it. *)
Theorem Network_compute_chain N n_in input output buffer :
  Network_wf n_in N → n_in ≤ length input →
  out_of n_in (l N) ≤ length output →
  ∃ out buffer',
    Network_compute N input output buffer = Some (out, buffer') ∧
    compose_layers (l N) input output = Some out ∧
    ∀ L0 L1, l N = [L0; L1] →
      ∃ inter, Layer_compute L0 input (replicate (out_size L0) s_zero) = Some inter ∧
               Layer_compute L1 inter output = Some out.
Proof.
  intros Hwf Hin Hout.
  destruct (Network_compute_feed N n_in input output buffer Hwf Hin Hout)
    as [buffer' Hrun].
  destruct Hwf as (Hne & Hwf & Hch).
  assert (Hfeed : feed (l N) (take n_in input) = feed (l N) input).
  { destruct (l N) as [|L0 ls]; [done|]. destruct Hch as [<- _].
    unfold feed. simpl. by rewrite Layer_apply_take. }
  assert (Hcomp : compose_layers (l N) input output =
            Some (feed (l N) input ++ drop (out_of n_in (l N)) output)).
  { by apply compose_layers_feed. }
  eexists _, buffer'. split_and!; [exact Hrun|by rewrite Hfeed|].
  intros L0 L1 HN. rewrite HN in Hcomp. cbn [compose_layers] in Hcomp.
  destruct (Layer_compute L0 input _) as [inter|]; [|done].
  exists inter. split; [done|]. rewrite Hfeed, HN. exact Hcomp.
Qed.

(** C10.  For a well-formed network, an input and an output range that are
    long enough, the output written by [Network::compute] is the same for
    every state of the supplied [ComputeBuffer], and the overload without a
    buffer writes that output too. *)
Theorem Network_compute_buffer_independent N n_in input output :
  Network_wf n_in N → n_in ≤ length input →
  out_of n_in (l N) ≤ length output →
  ∃ out,
    (∀ buffer, ∃ buffer', Network_compute N input output buffer = Some (out, buffer')) ∧
    Network_compute_temp N input output = Some out.
Proof.
  intros Hwf Hin Hout. eexists. split.
  - intros buffer.
    destruct (Network_compute_feed N n_in input output buffer Hwf Hin Hout)
      as [buffer' Hrun].
    exists buffer'. exact Hrun.
  - unfold Network_compute_temp.
    destruct (Network_compute_feed N n_in input output ComputeBuffer_new
                Hwf Hin Hout) as [buffer' Hrun].
    by rewrite Hrun.
Qed.

End Network_compute_facts.

(** ** ComputeBuffer and TrainBuffer *)

Section Buffer_facts.
Context {T : Type} `{Scalar T}.
Implicit Types (buffer : ComputeBuffer T) (cs : list BeginCall).

Lemma begin_calls_length buffer cs :
  length (A (begin_calls buffer cs)) = max (length (A buffer)) (max_list (requested_A cs)) ∧
  length (B (begin_calls buffer cs)) = max (length (B buffer)) (max_list (requested_B cs)).
Proof.
  revert buffer. induction cs as [|c cs IH]; intros buffer.
  - simpl. lia.
  - change (begin_calls buffer (c :: cs))
      with (begin_calls (begin_call buffer c) cs).
    destruct (IH (begin_call buffer c)) as [-> ->].
    destruct c as [s|s]; simpl; rewrite grow_length; lia.
Qed.

End Buffer_facts.

(** ** Network::train *)

Section Network_train_facts.
Context {T : Type} `{Scalar T}.
Implicit Types (L : Layer T) (N : Network T) (ls : list (Layer T)).
Implicit Types (input output target back : list T) (buffer : TrainBuffer T).

Lemma index_cases L idx :
  idx < bias_index L (out_size L) →
  ∃ o, o < out_size L ∧
       (idx = bias_index L o ∨ ∃ i, i < in_size L ∧ idx = weight_index L i o).
Proof.
  unfold bias_index, weight_index. intros Hidx.
  pose proof (Nat.div_mod_eq idx (1 + in_size L)) as Hdm.
  pose proof (Nat.mod_upper_bound idx (1 + in_size L)) as Hr.
  set (o := idx `div` (1 + in_size L)) in *.
  set (r := idx `mod` (1 + in_size L)) in *.
  exists o. split; [nia|].
  destruct r as [|i] eqn:Hreq; [left; lia|].
  right. exists i. split; lia.
Qed.

Lemma Layer_train_with_w L rate input output target back L' back' :
  Layer_train L rate input output target back = Some (L', back') →
  L' = with_w L (w L').
Proof.
  unfold Layer_train.
  destruct (train_seed _ _ _ _ _) as [back0|]; simpl; [|done].
  destruct (train_outputs _ _ _ _ _ _ _ _ _ _ _) as [[wv back1]|]; simpl; [|done].
  by intros [= <- _].
Qed.

Lemma delta_of_take d output1 output2 target o n :
  take n output1 = take n output2 → o < n →
  delta_of d output1 target o = delta_of d output2 target o.
Proof.
  intros Htake Ho. unfold delta_of.
  assert (output1 !!! o = output2 !!! o) as ->; [|done].
  rewrite <- (lookup_total_take_lt output1 n o Ho).
  rewrite <- (lookup_total_take_lt output2 n o Ho).
  by rewrite Htake.
Qed.

(** The layer after [train] does not depend on what the [back] range held,
    nor on the [output] range beyond the layer's output size. *)
Lemma Layer_train_indep L rate d input output1 output2 target back1 back2 :
  derivative (tf L) = Some d →
  out_size L * (1 + in_size L) ≤ length (w L) →
  in_size L ≤ length input → out_size L ≤ length target →
  in_size L ≤ length back1 → in_size L ≤ length back2 →
  out_size L ≤ length output1 → out_size L ≤ length output2 →
  take (out_size L) output1 = take (out_size L) output2 →
  ∃ L' back1' back2',
    Layer_train L rate input output1 target back1 = Some (L', back1') ∧
    Layer_train L rate input output2 target back2 = Some (L', back2').
Proof.
  intros Hd Hw Hin Htgt Hb1 Hb2 Ho1 Ho2 Htake.
  destruct (Layer_train_spec L rate d input output1 target back1)
    as (L1 & bk1 & Hrun1 & _ & _ & _ & Hlw1 & _ & Hbias1 & Hwt1 & Hrest1 & _);
    try done.
  destruct (Layer_train_spec L rate d input output2 target back2)
    as (L2 & bk2 & Hrun2 & _ & _ & _ & Hlw2 & _ & Hbias2 & Hwt2 & Hrest2 & _);
    try done.
  exists L1, bk1, bk2. split; [done|]. rewrite Hrun2. do 2 f_equal.
  rewrite (Layer_train_with_w _ _ _ _ _ _ _ _ Hrun1).
  rewrite (Layer_train_with_w _ _ _ _ _ _ _ _ Hrun2). f_equal.
  apply (list_eq_same_length _ _ (length (w L))); try done.
  intros idx x y Hidx Hx Hy.
  apply list_lookup_total_correct in Hx, Hy. subst x y.
  destruct (decide (idx < bias_index L (out_size L))) as [Hlt|Hge].
  - destruct (index_cases L idx Hlt) as (o & Ho & [->|(i & Hi & ->)]).
    + rewrite Hbias1, Hbias2 by done. unfold bias_updated.
      by rewrite (delta_of_take d output1 output2 target o (out_size L)).
    + rewrite Hwt1, Hwt2 by done. unfold weight_updated.
      by rewrite (delta_of_take d output1 output2 target o (out_size L)).
  - rewrite Hrest1, Hrest2 by lia. done.
Qed.

Lemma grow_slots_length n buffer :
  length (grow_slots n buffer) = max (length buffer) n.
Proof.
  unfold grow_slots. case_decide; [rewrite length_resize|]; lia.
Qed.

Lemma train_forward_length ls buffer b_iter buffer' b_iter' :
  train_forward ls buffer b_iter = Some (buffer', b_iter') →
  length buffer' = length buffer ∧ b_iter' = b_iter + length ls.
Proof.
  revert buffer b_iter. induction ls as [|L ls IH]; intros buffer b_iter; simpl.
  - intros [= <- <-]. lia.
  - destruct (buffer !! b_iter) as [src|]; simpl; [|done].
    destruct (buffer !! S b_iter) as [dst|]; simpl; [|done].
    destruct (Layer_compute _ _ _) as [a|]; simpl; [|done].
    intros Hrun. apply IH in Hrun as [-> ->]. rewrite length_insert. lia.
Qed.

Lemma train_call_length ls l_iter rate input target buffer b_iter ls' buffer' :
  train_call ls l_iter rate input target buffer b_iter = Some (ls', buffer') →
  length ls' = length ls ∧ length buffer' = length buffer.
Proof.
  unfold train_call.
  destruct (ls !! l_iter) as [L|]; simpl; [|done].
  destruct (buffer !! b_iter) as [slot|]; simpl; [|done].
  destruct (Layer_train _ _ _ _ _ _) as [[L' back]|]; simpl; [|done].
  intros [= <- <-]. by rewrite !length_insert.
Qed.

(** The test of the interior loop fails the first time it is evaluated,
    whatever the fuel: the loop body never runs. *)
Lemma train_interior_exit fuel rate ls buffer l_iter b_iter :
  l_iter ≠ 0 →
  train_interior fuel rate ls buffer l_iter b_iter =
    Some (ls, buffer, pred l_iter, b_iter).
Proof.
  intros Hne. destruct l_iter as [|l_iter1]; [done|].
  destruct fuel; simpl; by rewrite decide_False by (intros Hne'; by apply Hne').
Qed.

#[local] Arguments train_interior : simpl never.

Lemma Network_train_length N rate input target buffer N' buffer' :
  Network_train N rate input target buffer = Some (N', buffer') →
  length (l N') = length (l N) ∧
  length buffer' = max (length buffer) (length (l N)).
Proof.
  unfold Network_train. destruct (l N) as [|l_first rest] eqn:HlN; [done|].
  set (n := length (l_first :: rest)).
  pose proof (grow_slots_length n buffer) as Hgrow.
  destruct (grow_slots n buffer !! 0) as [slot0|]; simpl; [|done].
  destruct (Layer_compute _ _ _) as [a|]; simpl; [|done].
  destruct (train_forward _ _ _) as [[buffer1 b_iter]|] eqn:Hfw; simpl; [|done].
  apply train_forward_length in Hfw as [Hl1 _]. rewrite length_insert in Hl1.
  case_decide.
  - destruct (train_call _ _ _ _ _ _ _) as [[ls1 buffer2]|] eqn:Hc1; simpl; [|done].
    apply train_call_length in Hc1 as [Hls1 Hb2].
    intros [= <- <-]. simpl. split; [done|]. lia.
  - destruct (prev_it b_iter) as [pb|]; simpl; [|done].
    destruct (buffer1 !! pb) as [prev|]; simpl; [|done].
    destruct (train_call _ _ _ _ _ _ _) as [[ls1 buffer2]|] eqn:Hc1; simpl; [|done].
    apply train_call_length in Hc1 as [Hls1 Hb2].
    rewrite train_interior_exit by done. simpl.
    destruct (buffer2 !! S pb) as [next|]; simpl; [|done].
    destruct (train_call _ _ _ _ _ _ _) as [[ls3 buffer4]|] eqn:Hc3; simpl; [|done].
    apply train_call_length in Hc3 as [Hls3 Hb4].
    intros [= <- <-]. simpl. split; [lia|]. lia.
Qed.

Lemma train_call_layers ls l_iter rate input target buffer b_iter ls' buffer' :
  train_call ls l_iter rate input target buffer b_iter = Some (ls', buffer') →
  ∃ L', ls' = <[l_iter := L']> ls.
Proof.
  unfold train_call.
  destruct (ls !! l_iter) as [L|]; simpl; [|done].
  destruct (buffer !! b_iter) as [slot|]; simpl; [|done].
  destruct (Layer_train _ _ _ _ _ _) as [[L' back]|]; simpl; [|done].
  intros [= <- <-]. by exists L'.
Qed.

(** With three layers or more, a call of [Network::train] that returns has
    trained the last two layers only: every layer before them is as it
    was. *)
Lemma Network_train_skips N rate input target buffer N' buffer' k :
  Network_train N rate input target buffer = Some (N', buffer') →
  k + 2 < length (l N) → l N' !! k = l N !! k.
Proof.
  unfold Network_train. destruct (l N) as [|l_first rest] eqn:HlN; [done|].
  set (n := length (l_first :: rest)).
  destruct (grow_slots n buffer !! 0) as [slot0|]; simpl; [|done].
  destruct (Layer_compute _ _ _) as [a|]; simpl; [|done].
  destruct (train_forward _ _ _) as [[buffer1 b_iter]|]; simpl; [|done].
  case_decide; [simpl in *; lia|].
  destruct (prev_it b_iter) as [pb|]; simpl; [|done].
  destruct (buffer1 !! pb) as [prev|]; simpl; [|done].
  destruct (train_call _ _ _ _ _ _ _) as [[ls1 buffer2]|] eqn:Hc1; simpl; [|done].
  apply train_call_layers in Hc1 as [L1 ->].
  rewrite train_interior_exit by done. simpl.
  destruct (buffer2 !! S pb) as [next|]; simpl; [|done].
  destruct (train_call _ _ _ _ _ _ _) as [[ls3 buffer4]|] eqn:Hc3; simpl; [|done].
  apply train_call_layers in Hc3 as [L3 ->].
  intros [= <- <-] Hk. simpl in *.
  rewrite !list_lookup_insert_ne by lia. done.
Qed.

Lemma train_call_returns ls l_iter rate input target buffer b_iter L slot :
  ls !! l_iter = Some L → buffer !! b_iter = Some slot →
  Layer_wf L → is_Some (derivative (tf L)) →
  in_size L ≤ length input → out_size L ≤ length (A slot) →
  out_size L ≤ length target →
  ∃ L' back,
    train_call ls l_iter rate input target buffer b_iter =
      Some (<[l_iter := L']> ls, <[b_iter := {| A := A slot; B := back |}]> buffer) ∧
    in_size L ≤ length back.
Proof.
  intros HL Hslot [Hw _] [d Hd] Hin Hout Htgt.
  destruct (Layer_train_spec L rate d input (A slot) target
              (grow (in_size L) (B slot)))
    as (L' & back & Hrun & _ & _ & _ & _ & Hlb & _); try (done || lia).
  { rewrite grow_length. lia. }
  exists L', back. split.
  - unfold train_call. rewrite HL. cbn [mbind option_bind].
    rewrite Hslot. cbn [mbind option_bind].
    unfold beginB, inputs, set_B. cbn [A B]. by rewrite Hrun.
  - rewrite Hlb, grow_length. lia.
Qed.

(** The forward pass of [Network::train] returns and leaves in slot [k]'s
    [A] at least the output size of layer [k]. *)
Lemma train_forward_returns ls :
  ∀ buffer b_iter prev src,
    Forall Layer_wf ls → chained prev ls →
    b_iter + length ls < length buffer →
    buffer !! b_iter = Some src → prev ≤ length (A src) →
    ∃ buffer',
      train_forward ls buffer b_iter = Some (buffer', b_iter + length ls) ∧
      length buffer' = length buffer ∧
      (∀ k, k ≤ b_iter → buffer' !! k = buffer !! k) ∧
      (∀ k L, ls !! k = Some L →
         ∃ slot, buffer' !! (b_iter + 1 + k) = Some slot ∧
                 out_size L ≤ length (A slot)).
Proof.
  induction ls as [|L ls IH]; intros buffer b_iter prev src Hwf Hch Hlen Hsrc Hprev.
  - exists buffer. simpl. rewrite Nat.add_0_r. split_and!; try done.
  - apply Forall_cons_1 in Hwf as [HL Hwf]. destruct Hch as [Hin Hch].
    simpl in Hlen.
    destruct (lookup_lt_is_Some_2 buffer (S b_iter)) as [dst Hdst]; [lia|].
    set (a := Layer_apply L (A src) ++
              drop (out_size L) (grow (out_size L) (A dst))).
    assert (Ha : Layer_compute L (A src) (grow (out_size L) (A dst)) = Some a).
    { apply Layer_compute_apply; try (done || lia). rewrite grow_length. lia. }
    assert (Hla : out_size L ≤ length a).
    { subst a. rewrite length_app, Layer_apply_length by done. lia. }
    set (slot := {| A := a; B := B dst |}).
    destruct (IH (<[S b_iter := slot]> buffer) (S b_iter) (out_size L) slot)
      as (buffer' & Hrun & Hlb & Hold & Hnew); try done.
    { rewrite length_insert. lia. }
    { apply list_lookup_insert_eq. lia. }
    exists buffer'. split_and!.
    + cbn [train_forward]. rewrite Hsrc. cbn [mbind option_bind].
      rewrite Hdst. cbn [mbind option_bind].
      unfold beginA, outputs, set_A. cbn [A B]. rewrite Ha.
      cbn [mbind option_bind]. fold slot. rewrite Hrun.
      do 2 f_equal. simpl. lia.
    + by rewrite Hlb, length_insert.
    + intros k Hk. rewrite Hold by lia.
      apply list_lookup_insert_ne. lia.
    + intros [|k] L' HL'.
      * injection HL' as <-. exists slot. split; [|done].
        rewrite Nat.add_0_r, Nat.add_1_r. rewrite Hold by lia.
        apply list_lookup_insert_eq. lia.
      * destruct (Hnew k L' HL') as (slot' & Hslot' & Hout').
        exists slot'. split; [|done]. rewrite <- Hslot'. f_equal. lia.
Qed.

Lemma chained_lookup ls :
  ∀ prev k L L',
    chained prev ls → ls !! k = Some L → ls !! S k = Some L' →
    in_size L' = out_size L.
Proof.
  induction ls as [|L0 ls IH]; intros prev k L L' Hch HL HL'; [done|].
  destruct Hch as [_ Hch]. destruct k as [|k].
  - injection HL as <-. destruct ls as [|L1 ls]; [done|].
    injection HL' as <-. by destruct Hch.
  - by apply (IH (out_size L0) k).
Qed.

Lemma out_of_last ls :
  ∀ prev L, ls !! (length ls - 1) = Some L → out_of prev ls = out_size L.
Proof.
  induction ls as [|L0 ls IH]; intros prev L HL; [done|].
  rewrite out_of_cons. destruct ls as [|L1 ls].
  - by injection HL as <-.
  - apply IH. simpl in *. by rewrite Nat.sub_0_r in *.
Qed.

(** [Network::train] returns on a trainable network when the input and the
    target are long enough. *)
Lemma Network_train_returns N n_in rate input target buffer :
  Network_trainable n_in N → Network_train_ranges_ok n_in N input target →
  ∃ N' buffer', Network_train N rate input target buffer = Some (N', buffer').
Proof.
  intros [(Hne & Hwf & Hch) Hder] (Hin & Htgt & Hlast).
  unfold Network_train.
  destruct (l N) as [|l_first rest] eqn:HlN; [done|]. clear Hne.
  pose proof Hwf as Hwfall. pose proof Hch as Hchall.
  apply Forall_cons_1 in Hwf as [Hwf1 Hwf]. destruct Hch as [Hin1 Hch].
  cbn [length] in *.
  set (buffer0 := grow_slots (S (length rest)) buffer).
  assert (Hl0 : S (length rest) ≤ length buffer0).
  { subst buffer0. rewrite grow_slots_length. lia. }
  destruct (lookup_lt_is_Some_2 buffer0 0) as [slot0 Hslot0]; [lia|].
  set (a := Layer_apply l_first input ++
            drop (out_size l_first) (grow (out_size l_first) (A slot0))).
  assert (Ha : Layer_compute l_first input (grow (out_size l_first) (A slot0))
               = Some a).
  { apply Layer_compute_apply; try (done || lia). rewrite grow_length. lia. }
  assert (Hla : out_size l_first ≤ length a).
  { subst a. rewrite length_app, Layer_apply_length by done. lia. }
  set (slot1 := {| A := a; B := B slot0 |}).
  destruct (train_forward_returns rest (<[0 := slot1]> buffer0) 0
              (out_size l_first) slot1)
    as (buffer1 & Hfw & Hlb & Hold & Hnew); try done.
  { rewrite length_insert. simpl. lia. }
  { apply list_lookup_insert_eq. lia. }
  rewrite length_insert in Hlb.
  assert (Hslots : ∀ k L, (l_first :: rest) !! k = Some L →
            ∃ slot, buffer1 !! k = Some slot ∧ out_size L ≤ length (A slot)).
  { intros [|k] L HL.
    - injection HL as <-. exists slot1. split; [|done].
      rewrite Hold by lia. apply list_lookup_insert_eq. lia.
    - apply (Hnew k L HL). }
  rewrite Hslot0. cbn [mbind option_bind].
  unfold beginA, outputs, set_A. cbn [A B]. rewrite Ha.
  cbn [mbind option_bind]. fold slot1. rewrite Hfw.
  cbn [mbind option_bind prev_it Nat.add].
  destruct (decide (length rest = 0)) as [H0|H0].
  - destruct (Hslots 0 l_first eq_refl) as (slot & Hslot & Hout).
    destruct (train_call_returns (l_first :: rest) 0 rate input target
                buffer1 0 l_first slot)
      as (L' & back & Hcall & _); try (done || lia).
    { by apply Forall_cons_1 in Hder as [? _]. }
    { rewrite <- (out_of_last (l_first :: rest) n_in); [done|].
      simpl. by rewrite H0. }
    rewrite H0 in *. rewrite Hcall. cbn [mbind option_bind]. by eexists _, _.
  - destruct (length rest) as [|m] eqn:Hm; [done|].
    cbn [mbind option_bind prev_it].
    destruct (lookup_lt_is_Some_2 (l_first :: rest) (S m)) as [L_last HLl].
    { simpl. lia. }
    destruct (lookup_lt_is_Some_2 (l_first :: rest) m) as [L_m HLm].
    { simpl. lia. }
    destruct (Hslots m L_m HLm) as (prev & Hprev & Hpout).
    destruct (Hslots (S m) L_last HLl) as (slot_l & Hslotl & Hlout).
    assert (Hchl : in_size L_last = out_size L_m).
    { by apply (chained_lookup (l_first :: rest) n_in m). }
    destruct (train_call_returns (l_first :: rest) (S m) rate (A prev) target
                buffer1 (S m) L_last slot_l)
      as (L' & back & Hcall & Hback); try (done || lia).
    { by apply (Forall_lookup_1 _ _ _ _ Hwfall HLl). }
    { by apply (Forall_lookup_1 _ _ _ _ Hder HLl). }
    { rewrite <- (out_of_last (l_first :: rest) n_in); [done|].
      simpl. by rewrite Hm, Nat.sub_0_r. }
    rewrite Hprev. cbn [mbind option_bind]. rewrite Hcall.
    cbn [mbind option_bind].
    rewrite train_interior_exit by done. cbn [mbind option_bind pred].
    rewrite list_lookup_insert_eq by lia. cbn [mbind option_bind B].
    destruct (train_call_returns (<[S m := L']> (l_first :: rest)) m rate input
                back (<[S m := {| A := A slot_l; B := back |}]> buffer1) m
                L_m prev)
      as (L'' & back' & Hcall' & _); try (done || lia).
    { rewrite list_lookup_insert_ne by lia. done. }
    { rewrite list_lookup_insert_ne by lia. done. }
    { by apply (Forall_lookup_1 _ _ _ _ Hwfall HLm). }
    { by apply (Forall_lookup_1 _ _ _ _ Hder HLm). }
    { apply Hlast. rewrite <- HLm. f_equal. lia. }
    rewrite Hcall'. cbn [mbind option_bind]. by eexists _, _.
Qed.

(** C7.  [beginA(s)] and [beginB(s)] leave their container with at least
    [s] cells, so that [s] writes from the returned cursor are in range,
    keep the cells it had and do not touch the other container; after any
    sequence of calls each container's length is the maximum of its
    initial length and of the sizes requested for it.  [Network::train], on
    a trainable network and ranges that are long enough, returns and leaves
    the [TrainBuffer] with the maximum of its initial length and
    [layers()] entries. *)
Theorem buffers_only_grow (cbuf : ComputeBuffer T) (cs : list BeginCall)
    (s : nat) N n_in rate input target buffer :
  Network_trainable n_in N → Network_train_ranges_ok n_in N input target →
  (length (A (begin_calls cbuf cs)) =
     max (length (A cbuf)) (max_list (requested_A cs)) ∧
   length (B (begin_calls cbuf cs)) =
     max (length (B cbuf)) (max_list (requested_B cs))) ∧
  (length (A (beginA s cbuf)) = max (length (A cbuf)) s ∧
   take (length (A cbuf)) (A (beginA s cbuf)) = A cbuf ∧
   B (beginA s cbuf) = B cbuf ∧
   ∀ k x, k < s → is_Some (store (A (beginA s cbuf)) k x)) ∧
  (length (B (beginB s cbuf)) = max (length (B cbuf)) s ∧
   take (length (B cbuf)) (B (beginB s cbuf)) = B cbuf ∧
   A (beginB s cbuf) = A cbuf ∧
   ∀ k x, k < s → is_Some (store (B (beginB s cbuf)) k x)) ∧
  ∃ N' buffer',
    Network_train N rate input target buffer = Some (N', buffer') ∧
    length buffer' = max (length buffer) (layers N) ∧
    layers N ≤ length buffer' ∧ length buffer ≤ length buffer'.
Proof.
  intros Htr Hranges.
  destruct (Network_train_returns N n_in rate input target buffer Htr Hranges)
    as (N' & buffer' & Hrun).
  pose proof (Network_train_length _ _ _ _ _ _ _ Hrun) as [_ Hlen].
  unfold layers. split_and!.
  - apply begin_calls_length.
  - apply begin_calls_length.
  - apply grow_length.
  - apply grow_take.
  - done.
  - intros k x Hk. rewrite store_Some; [done|].
    simpl. rewrite grow_length. lia.
  - apply grow_length.
  - apply grow_take.
  - done.
  - intros k x Hk. rewrite store_Some; [done|].
    simpl. rewrite grow_length. lia.
  - exists N', buffer'. split_and!; (done || lia).
Qed.

(** On one layer, [Network::train] leaves the layer that a direct
    [Layer::train] leaves on any [output] range that starts with the
    layer's activations. *)
Lemma Network_train_single N L rate d input target out back L' back' buffer :
  l N = [L] → Layer_wf L → derivative (tf L) = Some d →
  in_size L ≤ length input → out_size L ≤ length target →
  out_size L ≤ length out → in_size L ≤ length back →
  take (out_size L) out = Layer_apply L input →
  Layer_train L rate input out target back = Some (L', back') →
  ∃ buffer',
    Network_train N rate input target buffer = Some ({| l := [L'] |}, buffer').
Proof.
  intros HlN Hwf Hd Hin Htgt Hout Hback Htake Hdirect.
  pose proof Hwf as [Hw _].
  set (buffer0 := grow_slots 1 buffer).
  assert (Hl0 : 0 < length buffer0).
  { subst buffer0. rewrite grow_slots_length. lia. }
  destruct (lookup_lt_is_Some_2 buffer0 0 Hl0) as [slot0 Hslot0].
  set (a := Layer_apply L input ++
            drop (out_size L) (grow (out_size L) (A slot0))).
  assert (Ha : Layer_compute L input (grow (out_size L) (A slot0)) = Some a).
  { apply Layer_compute_apply; try done. rewrite grow_length. lia. }
  destruct (Layer_train_indep L rate d input out a target back
              (grow (in_size L) (B slot0)))
    as (L1 & back1 & back2 & Ht1 & Ht2); try (done || lia).
  { rewrite grow_length. lia. }
  { subst a. rewrite length_app, Layer_apply_length by done. lia. }
  { subst a. by rewrite take_apply_app. }
  rewrite Hdirect in Ht1. injection Ht1 as <- <-.
  eexists.
  unfold Network_train. rewrite HlN. cbn [length]. fold buffer0.
  rewrite Hslot0. cbn [mbind option_bind].
  unfold beginA, outputs. cbn [A B]. rewrite Ha.
  cbn [mbind option_bind train_forward prev_it].
  rewrite decide_True by done.
  unfold train_call. cbn [lookup list_lookup mbind option_bind].
  rewrite list_lookup_insert_eq by done.
  cbn [mbind option_bind]. unfold beginB, set_A, set_B, inputs. cbn [A B].
  rewrite Ht2. cbn [mbind option_bind]. reflexivity.
Qed.

(** C8.  For a network of exactly one layer [L], [Network::compute] is
    [L.compute] on the same input and output, with or without a buffer;
    and on ranges that are long enough [Network::train], with any buffer
    or without one, returns and leaves as its one layer the layer that
    [L.train] leaves when it is called with the same rate, input and
    target, on the output of [L.compute] for the input and on any scratch
    [back] range. *)
Theorem Network_single_layer N L rate d input target output back
    (cbuf : ComputeBuffer T) :
  l N = [L] → Layer_wf L → derivative (tf L) = Some d →
  in_size L ≤ length input → out_size L ≤ length target →
  out_size L ≤ length output → in_size L ≤ length back →
  Network_compute N input output cbuf =
    (out ← Layer_compute L input output; Some (out, cbuf)) ∧
  Network_compute_temp N input output = Layer_compute L input output ∧
  ∃ out L' back',
    Layer_compute L input output = Some out ∧
    Layer_train L rate input out target back = Some (L', back') ∧
    (∀ buffer, ∃ buffer',
       Network_train N rate input target buffer =
         Some ({| l := [L'] |}, buffer')) ∧
    Network_train_temp N rate input target = Some {| l := [L'] |}.
Proof.
  intros HlN Hwf Hd Hin Htgt Hout Hback.
  assert (Hnc : ∀ cb, Network_compute N input output cb =
            (out ← Layer_compute L input output; Some (out, cb))).
  { intros cb. unfold Network_compute. by rewrite HlN. }
  split_and!.
  - apply Hnc.
  - unfold Network_compute_temp. rewrite Hnc.
    by destruct (Layer_compute L input output).
  - pose proof Hwf as [Hw _].
    set (out := Layer_apply L input ++ drop (out_size L) output).
    assert (Ho : Layer_compute L input output = Some out).
    { by apply Layer_compute_apply. }
    assert (Hlo : out_size L ≤ length out).
    { subst out. rewrite length_app, Layer_apply_length by done. lia. }
    assert (Htake : take (out_size L) out = Layer_apply L input).
    { subst out. by apply take_apply_app. }
    destruct (Layer_train_spec L rate d input out target back)
      as (L' & back' & Hdirect & _); try (done || lia).
    assert (Hnet : ∀ buffer, ∃ buffer',
              Network_train N rate input target buffer =
                Some ({| l := [L'] |}, buffer')).
    { intros buffer.
      by apply (Network_train_single N L rate d input target out back L' back'). }
    exists out, L', back'. split_and!; try done.
    unfold Network_train_temp. destruct (Hnet []) as [buffer' ->]. done.
Qed.

(** On one or two layers [Network::train] is the backward pass taken layer
    by layer. *)
Lemma Network_train_backward_small N rate input target buffer :
  length (l N) ≤ 2 →
  Network_train N rate input target buffer =
    Network_train_backward N rate input target buffer.
Proof.
  unfold Network_train, Network_train_backward.
  destruct (l N) as [|l_first [|l_second [|l_third rest]]]; [done| | |simpl; lia];
    intros _.
  - cbn [length]. destruct (grow_slots 1 buffer !! 0) as [slot0|]; [|done].
    cbn [mbind option_bind]. destruct (Layer_compute _ _ _) as [a|]; [|done].
    reflexivity.
  - cbn [length]. destruct (grow_slots 2 buffer !! 0) as [slot0|]; [|done].
    cbn [mbind option_bind]. destruct (Layer_compute _ _ _) as [a|]; [|done].
    cbn [mbind option_bind].
    destruct (train_forward _ _ _) as [[buffer1 b_iter]|] eqn:Hfw; [|done].
    apply train_forward_length in Hfw as [_ ->].
    cbn [mbind option_bind length prev_it Nat.add].
    rewrite decide_False by done.
    destruct (buffer1 !! 0) as [prev|]; [|done].
    cbn [mbind option_bind].
    destruct (train_call _ _ _ _ _ _ _) as [[ls1 buffer2]|]; [|done].
    cbn [mbind option_bind].
    rewrite train_interior_exit by done. reflexivity.
Qed.

End Network_train_facts.

(** ** The presets and the constructors *)

#[export] Instance Z_ScalarOrder : ScalarOrder Z.
Proof.
  constructor; [|done]. intros x y. simpl.
  rewrite Z.geb_leb. intros Hlt. apply Z.ltb_lt in Hlt. apply Z.leb_gt. exact Hlt.
Qed.

Lemma Network_layers_wf {T : Type} `{Scalar T} (nodes : list nat) :
  ∀ (prev : nat) (t : TransferFunction T),
    nodes_fit prev nodes → is_Some (transfer t) →
    Forall Layer_wf (Network_layers prev nodes t) ∧
    chained prev (Network_layers prev nodes t).
Proof.
  induction nodes as [|size nodes IH]; intros prev t Hfit Ht; simpl.
  - split; [constructor|done].
  - destruct Hfit as [Hfit1 Hfit].
    destruct (IH size t Hfit Ht) as [Hwf Hch]. split.
    + constructor; [|done]. split; [|done]. simpl.
      rewrite length_replicate. by apply size_new_fits.
    + done.
Qed.

(** A network built by the constructor from a non-empty list of sizes
    whose weight counts fit [size_type] is well formed. *)
Lemma Network_new_wf {T : Type} `{Scalar T} (n_in : nat) (nodes : list nat)
    (t : TransferFunction T) :
  nodes ≠ [] → nodes_fit n_in nodes → is_Some (transfer t) →
  Network_wf n_in (Network_new n_in nodes t).
Proof.
  intros Hne Hfit Ht.
  destruct (Network_layers_wf nodes n_in t Hfit Ht) as [Hwf Hch].
  split_and!; try done. simpl. by destruct nodes.
Qed.

(** ** Concrete layers and networks *)

(** C1.  On [layer_1x1] (bias 0, weight 1) with rate 1, input 1, output 1
    and target 0, [delta] is 1; [train] takes the weight from 1 to 0 and
    then reads it for the back signal, so it leaves [back[0] = 1 - 1*0 =
    1], while the back signal over the weight at entry to the call is
    [1 - 1*1 = 0]. *)
Theorem Layer_train_reads_updated_weight :
  Layer_train layer_1x1 1%Z [1%Z] [1%Z] [0%Z] [0%Z] =
    Some ({| in_size := 1; out_size := 1; tf := heaviside_Z; w := [-1; 0]%Z |},
          [1%Z]) ∧
  back_signal_pre layer_1x1 one_Z [1%Z] [1%Z] [0%Z] 0 = 0%Z ∧
  back_signal_post layer_1x1 1%Z one_Z [1%Z] [1%Z] [0%Z] 0 = 1%Z.
Proof. split_and!; vm_compute; reflexivity. Qed.

(** The back signal is not, in every call, the one over the weights at
    entry to the call. *)
Lemma back_from_entry_weights_fails : ¬ back_from_entry_weights Z.
Proof.
  intros Hclaim.
  specialize (Hclaim layer_1x1 1%Z one_Z [1%Z] [1%Z] [0%Z] [0%Z]
                {| in_size := 1; out_size := 1; tf := heaviside_Z; w := [-1; 0]%Z |}
                [1%Z]).
  assert (Hbad : [1%Z] !! 0 = Some 0%Z); [|discriminate Hbad].
  apply Hclaim.
  - reflexivity.
  - unfold train_ranges_ok. simpl. lia.
  - reflexivity.
  - simpl. lia.
Qed.

(** C2 (evaluation).  On the three-layer network [net_3], with rate 1,
    input 2 and target 0, [Network::train] leaves the first layer untouched
    and trains the second one with the external input; the backward pass
    taken layer by layer trains all three. *)
Theorem Network_train_three_layers :
  weights_after (Network_train net_3 1%Z [2%Z] [0%Z] []) =
    Some [[0; 1]; [-2; -3]; [-1; 2]]%Z ∧
  weights_after (Network_train_backward net_3 1%Z [2%Z] [0%Z] []) =
    Some [[2; 5]; [-2; -1]; [-1; 2]]%Z.
Proof. split; vm_compute; reflexivity. Qed.

Lemma Layer_train_back_signal_witness :
  ∃ L' back',
    Layer_train layer_2x2 1%Z [1; 1]%Z [1; 0]%Z [0; 1]%Z [0; 0]%Z = Some (L', back') ∧
    back' = [6; -6]%Z.
Proof.
  destruct (Layer_train_back_signal layer_2x2 1%Z one_Z
              [1; 1]%Z [1; 0]%Z [0; 1]%Z [0; 0]%Z)
    as (L' & back' & Hrun & Hback).
  - reflexivity.
  - unfold train_ranges_ok. simpl. lia.
  - exists L', back'. split; [exact Hrun|].
    vm_compute in Hrun. congruence.
Defined.

Lemma Layer_compute_correct_witness :
  ∃ output',
    Layer_compute layer_2x2 [1; 1]%Z [0; 0]%Z = Some output' ∧
    output' !! 0 = Some (step_Z (weighted_sum layer_2x2 [1; 1]%Z 0)).
Proof.
  destruct (Layer_compute_correct layer_2x2 [1; 1]%Z [0; 0]%Z step_Z)
    as (output' & Hrun & _ & _ & Hval & _ & _ & _).
  - reflexivity.
  - simpl. lia.
  - simpl. lia.
  - reflexivity.
  - exists output'. split; [exact Hrun|]. apply Hval. simpl. lia.
Defined.

Lemma Layer_train_updates_witness :
  ∃ L' back',
    Layer_train layer_2x2 1%Z [1; 1]%Z [1; 0]%Z [0; 1]%Z [0; 0]%Z = Some (L', back') ∧
    w L' = [0; 1; 2; -3; 6; -5]%Z.
Proof.
  destruct (Layer_train_updates layer_2x2 1%Z one_Z
              [1; 1]%Z [1; 0]%Z [0; 1]%Z [0; 0]%Z)
    as (back0 & L' & back' & _ & _ & _ & Hrun & _).
  - reflexivity.
  - unfold train_ranges_ok. simpl. lia.
  - exists L', back'. split; [exact Hrun|].
    vm_compute in Hrun. injection Hrun as <- _. reflexivity.
Defined.

(** C5 (as stated).  The constructor called with [2^63] inputs and 2
    outputs computes [(2^63 + 1) * 2] modulo [2^64]: the layer has 2
    weights, not [(2^63 + 1) * 2], and [weight(0, 1)], the cell
    [1 * (1 + 2^63) + 0 + 1], is outside the store. *)
Lemma Layer_new_wraps :
  length (w (Layer_new (2 ^ 63) 2 heaviside_Z)) = 2 ∧
  length (w (Layer_new (2 ^ 63) 2 heaviside_Z)) ≠ (2 ^ 63 + 1) * 2 ∧
  weight (Layer_new (2 ^ 63) 2 heaviside_Z) 0 1 = None.
Proof.
  assert (Hlen : length (w (Layer_new (2 ^ 63) 2 heaviside_Z)) = 2).
  { unfold Layer_new. cbn [w]. rewrite length_replicate.
    unfold size_mul, size_add. rewrite N2Nat.id, Nat2N.inj_pow.
    vm_compute. reflexivity. }
  split_and!.
  - exact Hlen.
  - rewrite Hlen. intros Heq. apply (f_equal N.of_nat) in Heq.
    rewrite Nat2N.inj_mul, Nat2N.inj_add, Nat2N.inj_pow in Heq.
    vm_compute in Heq. discriminate.
  - unfold weight. apply lookup_ge_None_2. rewrite Hlen.
    unfold weight_index, Layer_new. cbn [in_size]. lia.
Qed.

Lemma Layer_shape_invariant_witness :
  ∃ L',
    Layer_calls (Layer_new 2 2 heaviside_Z)
      [CallCompute [1; 1]%Z [0; 0]%Z;
       CallTrain 1%Z [1; 1]%Z [1; 1]%Z [0; 1]%Z [0; 0]%Z] = Some L' ∧
    length (w L') = 6.
Proof.
  eexists. split; [reflexivity|].
  assert (Hfit : size_fits ((2 + 1) * 2)) by (vm_compute; reflexivity).
  destruct (Layer_shape_invariant 2 2 heaviside_Z
              [CallCompute [1; 1]%Z [0; 0]%Z;
               CallTrain 1%Z [1; 1]%Z [1; 1]%Z [0; 1]%Z [0; 0]%Z] _ Hfit eq_refl)
    as (_ & _ & _ & Hlen & _).
  exact Hlen.
Defined.

Lemma Network_compute_chain_witness :
  ∃ out buffer',
    Network_compute net_3 [2%Z] [0%Z] ComputeBuffer_new = Some (out, buffer') ∧
    compose_layers (l net_3) [2%Z] [0%Z] = Some out.
Proof.
  destruct (Network_compute_chain net_3 1 [2%Z] [0%Z] ComputeBuffer_new)
    as (out & buffer' & Hrun & Hcomp & _).
  - split_and!; [done| |done]. repeat constructor; by eexists.
  - simpl. lia.
  - simpl. lia.
  - by exists out, buffer'.
Defined.

Lemma buffers_only_grow_witness :
  length (A (begin_calls (ComputeBuffer_new : ComputeBuffer Z)
               [BeginA 4; BeginB 7; BeginA 2])) = 4 ∧
  ∃ N' buffer',
    Network_train net_3 1%Z [2%Z] [0%Z] [] = Some (N', buffer') ∧
    length buffer' = 3.
Proof.
  destruct (buffers_only_grow (ComputeBuffer_new : ComputeBuffer Z)
              [BeginA 4; BeginB 7; BeginA 2] 5
              net_3 1 1%Z [2%Z] [0%Z] [])
    as ([HA _] & _ & _ & N' & buffer' & Hrun & Hlen & _).
  - split.
    + split_and!; [done| |done]. repeat constructor; by eexists.
    + repeat constructor; by eexists.
  - split_and!.
    + simpl. lia.
    + simpl. lia.
    + intros L [= <-]. simpl. lia.
  - split; [exact HA|]. by exists N', buffer'.
Defined.

Lemma Network_single_layer_witness :
  Network_compute_temp net_1 [1; 1]%Z [0; 0]%Z =
    Layer_compute layer_2x2 [1; 1]%Z [0; 0]%Z ∧
  ∃ out L' back',
    Layer_compute layer_2x2 [1; 1]%Z [0; 0]%Z = Some out ∧
    Layer_train layer_2x2 1%Z [1; 1]%Z out [0; 1]%Z [9; 9; 9]%Z = Some (L', back') ∧
    Network_train_temp net_1 1%Z [1; 1]%Z [0; 1]%Z = Some {| l := [L'] |}.
Proof.
  destruct (Network_single_layer net_1 layer_2x2 1%Z one_Z
              [1; 1]%Z [0; 1]%Z [0; 0]%Z [9; 9; 9]%Z ComputeBuffer_new)
    as (_ & Htemp & out & L' & back' & Hout & Htrain & _ & Hnet).
  - reflexivity.
  - split; [reflexivity|]. by eexists.
  - reflexivity.
  - simpl. lia.
  - simpl. lia.
  - simpl. lia.
  - simpl. lia.
  - split; [exact Htemp|]. by exists out, L', back'.
Defined.

Lemma Heaviside_transfer_step_witness :
  ∃ f : Z → Z,
    transfer Heaviside = Some f ∧ f 0%Z = 1%Z ∧
    (∀ x, (x >=? 0)%Z = true → f x = 1%Z) ∧
    (∀ x, (x <? 0)%Z = true → f x = 0%Z).
Proof. exact (Heaviside_transfer_step (T := Z)). Defined.

Lemma Network_compute_buffer_independent_witness :
  ∃ out,
    (∀ buffer, ∃ buffer',
       Network_compute net_3 [2%Z] [0%Z] buffer = Some (out, buffer')) ∧
    Network_compute_temp net_3 [2%Z] [0%Z] = Some out.
Proof.
  apply (Network_compute_buffer_independent net_3 1 [2%Z] [0%Z]).
  - split_and!; [done| |done]. repeat constructor; by eexists.
  - simpl. lia.
  - simpl. lia.
Defined.

(** * Further properties of the layer *)

#[export] Instance Z_ScalarZeroLaws : ScalarZeroLaws Z.
Proof. constructor; intros x; simpl; lia. Qed.

Section Layer_locality.
Context {T : Type} `{Scalar T}.
Implicit Types (L : Layer T) (input output wv back target : list T).

Lemma lookup_total_take_eq (l1 l2 : list T) n i :
  take n l1 = take n l2 → i < n → l1 !!! i = l2 !!! i.
Proof.
  intros Htake Hi.
  rewrite <- (lookup_total_take_lt l1 n i Hi).
  rewrite <- (lookup_total_take_lt l2 n i Hi).
  by rewrite Htake.
Qed.

Lemma take_eq_lookup_total (l1 l2 : list T) n :
  n ≤ length l1 → n ≤ length l2 →
  (∀ i, i < n → l1 !!! i = l2 !!! i) → take n l1 = take n l2.
Proof.
  intros H1 H2 Heq.
  apply (list_eq_same_length _ _ n); try (rewrite length_take; lia).
  intros i x y Hi Hx Hy.
  rewrite lookup_take_lt in Hx, Hy by done.
  apply list_lookup_total_correct in Hx, Hy. subst x y. by apply Heq.
Qed.

Lemma drop_eq_lookup_total (l1 l2 : list T) n :
  length l1 = length l2 →
  (∀ i, n ≤ i → l1 !!! i = l2 !!! i) → drop n l1 = drop n l2.
Proof.
  intros Hlen Heq.
  apply (list_eq_same_length _ _ (length l1 - n)); try (rewrite length_drop; lia).
  intros i x y Hi Hx Hy. rewrite lookup_drop in Hx, Hy.
  apply list_lookup_total_correct in Hx, Hy. subst x y. apply Heq. lia.
Qed.

Lemma delta_of_local d output1 output2 target1 target2 o n :
  take n output1 = take n output2 → take n target1 = take n target2 → o < n →
  delta_of d output1 target1 o = delta_of d output2 target2 o.
Proof.
  intros Ho Ht Hlt. unfold delta_of.
  by rewrite (lookup_total_take_eq output1 output2 n o Ho Hlt),
             (lookup_total_take_eq target1 target2 n o Ht Hlt).
Qed.

(** [Layer::train] reads the first [in_size] cells of [input] and the first
    [out_size] cells of [output] and [target], and writes the first
    [in_size] cells of [back]. *)
Lemma Layer_train_prefix L rate d input1 input2 output1 output2
    target1 target2 back1 back2 :
  derivative (tf L) = Some d →
  out_size L * (1 + in_size L) ≤ length (w L) →
  in_size L ≤ length input1 → in_size L ≤ length input2 →
  out_size L ≤ length output1 → out_size L ≤ length output2 →
  out_size L ≤ length target1 → out_size L ≤ length target2 →
  in_size L ≤ length back1 → in_size L ≤ length back2 →
  take (in_size L) input1 = take (in_size L) input2 →
  take (out_size L) output1 = take (out_size L) output2 →
  take (out_size L) target1 = take (out_size L) target2 →
  ∃ L' back1' back2',
    Layer_train L rate input1 output1 target1 back1 = Some (L', back1') ∧
    Layer_train L rate input2 output2 target2 back2 = Some (L', back2') ∧
    take (in_size L) back1' = take (in_size L) back2' ∧
    length back1' = length back1 ∧ length back2' = length back2 ∧
    drop (in_size L) back1' = drop (in_size L) back1 ∧
    drop (in_size L) back2' = drop (in_size L) back2.
Proof.
  intros Hd Hw Hi1 Hi2 Ho1 Ho2 Ht1 Ht2 Hb1 Hb2 Hin Hout Htgt.
  destruct (Layer_train_spec L rate d input1 output1 target1 back1)
    as (L1 & bk1 & Hrun1 & _ & _ & _ & Hlw1 & Hlb1 & Hbias1 & Hwt1 & Hrest1
        & Hbk1 & Hfr1); try done.
  destruct (Layer_train_spec L rate d input2 output2 target2 back2)
    as (L2 & bk2 & Hrun2 & _ & _ & _ & Hlw2 & Hlb2 & Hbias2 & Hwt2 & Hrest2
        & Hbk2 & Hfr2); try done.
  assert (Hdelta : ∀ o, o < out_size L →
            delta_of d output1 target1 o = delta_of d output2 target2 o).
  { intros o Ho. by apply (delta_of_local d _ _ _ _ o (out_size L)). }
  assert (Hwu : ∀ i o, i < in_size L → o < out_size L →
            weight_updated L rate d input1 output1 target1 i o =
            weight_updated L rate d input2 output2 target2 i o).
  { intros i o Hi Ho. unfold weight_updated.
    by rewrite (Hdelta o Ho), (lookup_total_take_eq input1 input2 _ i Hin Hi). }
  assert (HL : L1 = L2).
  { rewrite (Layer_train_with_w _ _ _ _ _ _ _ _ Hrun1).
    rewrite (Layer_train_with_w _ _ _ _ _ _ _ _ Hrun2). f_equal.
    apply (list_eq_same_length _ _ (length (w L))); try done.
    intros idx x y Hidx Hx Hy.
    apply list_lookup_total_correct in Hx, Hy. subst x y.
    destruct (decide (idx < bias_index L (out_size L))) as [Hlt|Hge].
    - destruct (index_cases L idx Hlt) as (o & Ho & [->|(i & Hi & ->)]).
      + rewrite Hbias1, Hbias2 by done. unfold bias_updated.
        by rewrite (Hdelta o Ho).
      + rewrite Hwt1, Hwt2 by done. by apply Hwu.
    - rewrite Hrest1, Hrest2 by lia. done. }
  subst L2. exists L1, bk1, bk2. split_and!; try done.
  - apply take_eq_lookup_total; try lia.
    intros i Hi. rewrite Hbk1, Hbk2 by done.
    unfold back_signal_post, back_sum.
    rewrite (lookup_total_take_eq input1 input2 _ i Hin Hi).
    apply foldl_ext_seq. intros acc o Ho.
    rewrite (Hdelta o) by lia. by rewrite (Hwu i o) by lia.
  - by apply drop_eq_lookup_total.
  - by apply drop_eq_lookup_total.
Qed.

End Layer_locality.

Section Layer_extras.
Context {T : Type} `{Scalar T}.
Implicit Types (L : Layer T) (input output wv back target : list T).

(** X1.  [Layer::compute] reads the first [in_size] cells of its input and
    writes the first [out_size] cells of its output: two calls on inputs
    that agree on their first [in_size] cells write the same [out_size]
    values, whatever the output ranges held, and each leaves the rest of
    its output range as it was. *)
Theorem Layer_compute_local L input1 input2 output1 output2 :
  Layer_wf L →
  in_size L ≤ length input1 → in_size L ≤ length input2 →
  out_size L ≤ length output1 → out_size L ≤ length output2 →
  take (in_size L) input1 = take (in_size L) input2 →
  ∃ vals,
    length vals = out_size L ∧
    Layer_compute L input1 output1 = Some (vals ++ drop (out_size L) output1) ∧
    Layer_compute L input2 output2 = Some (vals ++ drop (out_size L) output2).
Proof.
  intros Hwf Hi1 Hi2 Ho1 Ho2 Htake.
  exists (Layer_apply L input1). split_and!.
  - by apply Layer_apply_length.
  - by apply Layer_compute_apply.
  - rewrite Layer_compute_apply by done.
    by rewrite <- (Layer_apply_take L input1), Htake, Layer_apply_take.
Qed.

(** X2.  [Layer::train] reads the first [in_size] cells of [input] and the
    first [out_size] cells of [output] and [target]: two calls that agree
    on these leave the same layer and the same first [in_size] cells of
    [back], whatever [back] held, and each leaves the rest of its [back]
    range as it was. *)
Theorem Layer_train_local L rate d input1 input2 output1 output2
    target1 target2 back1 back2 :
  derivative (tf L) = Some d →
  train_ranges_ok L input1 output1 target1 back1 →
  train_ranges_ok L input2 output2 target2 back2 →
  take (in_size L) input1 = take (in_size L) input2 →
  take (out_size L) output1 = take (out_size L) output2 →
  take (out_size L) target1 = take (out_size L) target2 →
  ∃ L' back1' back2',
    Layer_train L rate input1 output1 target1 back1 = Some (L', back1') ∧
    Layer_train L rate input2 output2 target2 back2 = Some (L', back2') ∧
    take (in_size L) back1' = take (in_size L) back2' ∧
    drop (in_size L) back1' = drop (in_size L) back1 ∧
    drop (in_size L) back2' = drop (in_size L) back2.
Proof.
  intros Hd (Hw & ? & ? & ? & ?) (_ & ? & ? & ? & ?) Hin Hout Htgt.
  destruct (Layer_train_prefix L rate d input1 input2 output1 output2
              target1 target2 back1 back2)
    as (L' & b1 & b2 & Hr1 & Hr2 & Htk & _ & _ & Hd1 & Hd2); try (done || lia).
  by exists L', b1, b2.
Qed.

Lemma with_w_id L : with_w L (w L) = L.
Proof. by destruct L. Qed.

Lemma foldl_fixed_seq {X} (g : X → nat → X) (x : X) (j n : nat) :
  (∀ a k, j ≤ k < j + n → g a k = a) → foldl g x (seq j n) = x.
Proof.
  revert j. induction n as [|n IH]; intros j Hg; [done|].
  simpl. rewrite Hg by lia. apply IH. intros a k Hk. apply Hg. lia.
Qed.

(** When the output already is the target, [train] changes no weight and
    leaves in [back] a copy of the input. *)
Lemma Layer_train_fixed `{!ScalarZeroLaws T} L rate d input output target back :
  derivative (tf L) = Some d →
  out_size L * (1 + in_size L) ≤ length (w L) →
  in_size L ≤ length input → in_size L ≤ length back →
  out_size L ≤ length output → out_size L ≤ length target →
  take (out_size L) output = take (out_size L) target →
  Layer_train L rate input output target back =
    Some (L, take (in_size L) input ++ drop (in_size L) back).
Proof.
  intros Hd Hw Hin Hback Hout Htgt Htake.
  destruct (Layer_train_spec L rate d input output target back)
    as (L' & back' & Hrun & _ & _ & _ & Hlw & Hlb & Hbias & Hwt & Hrest
        & Hbk & Hfr); try done.
  assert (Hdelta : ∀ o, o < out_size L → delta_of d output target o = s_zero).
  { intros o Ho. unfold delta_of.
    rewrite (lookup_total_take_eq output target _ o Htake Ho).
    by rewrite s_sub_diag, s_mul_zero_r. }
  assert (HL : L' = L).
  { rewrite (Layer_train_with_w _ _ _ _ _ _ _ _ Hrun).
    rewrite <- (with_w_id L) at 2. f_equal.
    apply (list_eq_same_length _ _ (length (w L))); try done.
    intros idx x y Hidx Hx Hy.
    apply list_lookup_total_correct in Hx, Hy. subst x y.
    destruct (decide (idx < bias_index L (out_size L))) as [Hlt|Hge].
    - destruct (index_cases L idx Hlt) as (o & Ho & [->|(i & Hi & ->)]).
      + rewrite Hbias by done. unfold bias_updated.
        by rewrite (Hdelta o Ho), s_mul_zero_r, s_sub_zero_r.
      + rewrite Hwt by done. unfold weight_updated.
        by rewrite (Hdelta o Ho), s_mul_zero_r, s_mul_zero_l, s_sub_zero_r.
    - rewrite Hrest by lia. done. }
  rewrite Hrun, HL. do 2 f_equal.
  rewrite <- (take_drop (in_size L) back'). f_equal.
  - rewrite <- (firstn_all (take (in_size L) input)) at 1.
    rewrite length_take, Nat.min_l by lia.
    apply take_eq_lookup_total; try (rewrite ?length_take; lia).
    intros i Hi. rewrite Hbk by done.
    rewrite lookup_total_take_lt by done.
    unfold back_signal_post, back_sum.
    apply foldl_fixed_seq. intros acc o Ho.
    by rewrite (Hdelta o) by lia; rewrite s_mul_zero_l, s_sub_zero_r.
  - by apply drop_eq_lookup_total.
Qed.

(** X3.  On scalars with [x - x = 0], [x * 0 = 0 * x = 0] and [x - 0 = x],
    a call of [train] whose [output] already equals [target] on the
    layer's [out_size] cells leaves the layer as it was and leaves in
    [back] a copy of the first [in_size] cells of [input]. *)
Theorem Layer_train_at_target `{!ScalarZeroLaws T} L rate d input output target back :
  derivative (tf L) = Some d →
  train_ranges_ok L input output target back →
  take (out_size L) output = take (out_size L) target →
  Layer_train L rate input output target back =
    Some (L, take (in_size L) input ++ drop (in_size L) back).
Proof.
  intros Hd (Hw & ? & ? & ? & ?) Htake.
  apply (Layer_train_fixed L rate d); (done || lia).
Qed.





End Layer_extras.

Lemma Layer_compute_local_witness :
  ∃ vals,
    Layer_compute layer_2x2 [1; 1; 8]%Z [0; 0]%Z = Some (vals ++ []) ∧
    Layer_compute layer_2x2 [1; 1]%Z [5; 5; 5]%Z = Some (vals ++ [5%Z]).
Proof.
  destruct (Layer_compute_local layer_2x2 [1; 1; 8]%Z [1; 1]%Z [0; 0]%Z [5; 5; 5]%Z)
    as (vals & _ & H1 & H2).
  - split; [reflexivity|]. by eexists.
  - simpl. lia.
  - simpl. lia.
  - simpl. lia.
  - simpl. lia.
  - reflexivity.
  - by exists vals.
Defined.

Lemma Layer_train_local_witness :
  ∃ L' back1' back2',
    Layer_train layer_2x2 1%Z [1; 1; 8]%Z [1; 0]%Z [0; 1]%Z [0; 0]%Z
      = Some (L', back1') ∧
    Layer_train layer_2x2 1%Z [1; 1]%Z [1; 0; 3]%Z [0; 1; 4]%Z [9; 9; 9]%Z
      = Some (L', back2') ∧
    take 2 back1' = take 2 back2'.
Proof.
  destruct (Layer_train_local layer_2x2 1%Z one_Z
              [1; 1; 8]%Z [1; 1]%Z [1; 0]%Z [1; 0; 3]%Z
              [0; 1]%Z [0; 1; 4]%Z [0; 0]%Z [9; 9; 9]%Z)
    as (L' & b1 & b2 & H1 & H2 & Htk & _).
  - reflexivity.
  - unfold train_ranges_ok. simpl. lia.
  - unfold train_ranges_ok. simpl. lia.
  - reflexivity.
  - reflexivity.
  - reflexivity.
  - by exists L', b1, b2.
Defined.

Lemma Layer_train_at_target_witness :
  Layer_train layer_2x2 3%Z [1; 1]%Z [1; 0]%Z [1; 0; 5]%Z [7; 7; 7]%Z
    = Some (layer_2x2, [1; 1; 7]%Z).
Proof.
  apply (Layer_train_at_target layer_2x2 3%Z one_Z
           [1; 1]%Z [1; 0]%Z [1; 0; 5]%Z [7; 7; 7]%Z).
  - reflexivity.
  - unfold train_ranges_ok. simpl. lia.
  - reflexivity.
Defined.


(** * Further properties of the network *)

Section Network_extras.
Context {T : Type} `{Scalar T}.
Implicit Types (L : Layer T) (N : Network T) (ls : list (Layer T)).
Implicit Types (input output target : list T).

Lemma Network_layers_length (nodes : list nat) :
  ∀ prev (t : TransferFunction T),
    length (Network_layers prev nodes t) = length nodes.
Proof.
  induction nodes as [|size nodes IH]; intros prev t; simpl; [done|].
  by rewrite IH.
Qed.

Lemma Network_layers_lookup (nodes : list nat) :
  ∀ prev (t : TransferFunction T) k size,
    nodes !! k = Some size →
    Network_layers prev nodes t !! k =
      Some (Layer_new (match k with 0 => prev | S j => nodes !!! j end) size t).
Proof.
  induction nodes as [|size0 nodes IH]; intros prev t k size Hk; [done|].
  destruct k as [|k]; simpl in *.
  - by injection Hk as ->.
  - rewrite (IH size0 t k size Hk). by destruct k.
Qed.

Lemma nodes_fit_lookup (nodes : list nat) :
  ∀ prev k size,
    nodes_fit prev nodes → nodes !! k = Some size →
    size_fits ((match k with 0 => prev | S j => nodes !!! j end + 1) * size).
Proof.
  induction nodes as [|size0 nodes IH]; intros prev k size Hfit Hk; [done|].
  destruct Hfit as [Hfit0 Hfit]. destruct k as [|k]; simpl in Hk.
  - by injection Hk as <-.
  - pose proof (IH size0 k size Hfit Hk) as Hk'. by destruct k.
Qed.

(** X5.  When the weight count of every layer it builds fits [size_type],
    the network constructor makes one layer per entry of [nodes]: layer
    [k] has [nodes[k]] outputs and as many inputs as the layer before it
    has outputs ([inputs] for the first), the given transfer function and
    [(in+1)*out] weights, all value-initialised; [inputs()] and
    [outputs()] are the first input size and the last output size, and,
    the transfer function being present, the network is well formed and
    [compute] is defined on every input of at least [inputs()] cells and
    output range of at least [outputs()] cells.  From an empty [nodes] it
    makes a network without layers, on which [inputs()], [outputs()],
    [compute] and [train] are undefined. *)
Theorem Network_new_spec (n_in : nat) (nodes : list nat) (t : TransferFunction T) :
  nodes_fit n_in nodes →
  layers (Network_new n_in nodes t) = length nodes ∧
  chained n_in (l (Network_new n_in nodes t)) ∧
  (∀ k size, nodes !! k = Some size →
     ∃ L, layer (Network_new n_in nodes t) k = Some L ∧
          in_size L = match k with 0 => n_in | S j => nodes !!! j end ∧
          out_size L = size ∧ tf L = t ∧
          w L = replicate ((in_size L + 1) * size) s_zero) ∧
  (∀ size, nodes !! pred (length nodes) = Some size →
     Network_inputs (Network_new n_in nodes t) = Some n_in ∧
     Network_outputs (Network_new n_in nodes t) = Some size ∧
     (is_Some (transfer t) →
        Network_wf n_in (Network_new n_in nodes t) ∧
        ∀ input output cbuf,
          n_in ≤ length input → size ≤ length output →
          is_Some (Network_compute (Network_new n_in nodes t) input output cbuf))) ∧
  (nodes = [] →
     Network_inputs (Network_new n_in nodes t) = None ∧
     Network_outputs (Network_new n_in nodes t) = None ∧
     ∀ rate input output target cbuf buffer,
       Network_compute (Network_new n_in nodes t) input output cbuf = None ∧
       Network_train (Network_new n_in nodes t) rate input target buffer = None).
Proof.
  intros Hfit. split_and!.
  - unfold layers. cbn [l Network_new]. apply Network_layers_length.
  - cbn [l Network_new]. clear Hfit. revert n_in.
    induction nodes as [|size nodes IH]; intros n_in; simpl; auto.
  - intros k size Hk. unfold layer. cbn [l Network_new].
    rewrite (Network_layers_lookup nodes n_in t k size Hk).
    eexists. split; [done|]. cbn [in_size out_size tf w Layer_new].
    split_and!; try done.
    by rewrite size_new_fits by (by apply nodes_fit_lookup).
  - intros size Hlast.
    assert (HlastL : l (Network_new n_in nodes t)
                       !! (length (l (Network_new n_in nodes t)) - 1) =
                     Some (Layer_new (match pred (length nodes) with
                                      | 0 => n_in | S j => nodes !!! j end)
                                     size t)).
    { cbn [l Network_new]. rewrite Network_layers_length.
      rewrite <- (Network_layers_lookup nodes n_in t _ size Hlast).
      f_equal. lia. }
    split_and!.
    + unfold Network_inputs. cbn [l Network_new].
      destruct nodes as [|size0 nodes]; [done|]. done.
    + unfold Network_outputs. cbn [l Network_new].
      rewrite Network_layers_length.
      by rewrite (Network_layers_lookup nodes n_in t _ size Hlast).
    + intros Ht.
      assert (Hwf : Network_wf n_in (Network_new n_in nodes t)).
      { apply Network_new_wf; try done. by intros ->. }
      split; [done|]. intros input output cbuf Hin Hout.
      assert (Hout' : out_of n_in (l (Network_new n_in nodes t)) ≤ length output).
      { by rewrite (out_of_last _ n_in _ HlastL). }
      destruct (Network_compute_feed (Network_new n_in nodes t) n_in
                  input output cbuf Hwf Hin Hout') as [cbuf' Hrun].
      rewrite Hrun. by eexists.
  - intros ->. done.
Qed.

Lemma compute_outputs_length n L input w_iter output out_iter output' :
  compute_outputs n L input w_iter output out_iter = Some output' →
  length output' = length output.
Proof.
  revert w_iter output out_iter.
  induction n as [|n IH]; intros w_iter output out_iter; simpl.
  - by intros [= <-].
  - destruct (w L !! w_iter); simpl; [|done].
    destruct (compute_inputs _ _ _ _ _ _) as [[v w_iter']|]; simpl; [|done].
    destruct (transfer (tf L)); simpl; [|done].
    destruct (store output out_iter _) as [output1|] eqn:Hst; simpl; [|done].
    intros Hrun. rewrite (IH _ _ _ Hrun). by eapply store_length.
Qed.

(** A call of [Layer::compute] that returns keeps the length of the output
    range. *)
Lemma Layer_compute_length L input output output' :
  Layer_compute L input output = Some output' → length output' = length output.
Proof. apply compute_outputs_length. Qed.

Lemma compute_loop_grows (mid : list (Layer T)) :
  ∀ (buffer : ComputeBuffer T) side buffer',
    compute_loop mid buffer = Some (side, buffer') →
    length (A buffer) ≤ length (A buffer') ∧
    length (B buffer) ≤ length (B buffer').
Proof.
  pattern mid. apply list_pair_ind; clear mid.
  - intros buffer side buffer'. cbn [compute_loop]. by intros [= _ <-].
  - intros L1 buffer side buffer'. cbn [compute_loop].
    destruct (Layer_compute _ _ _) as [b|] eqn:Hb; [|done].
    intros [= _ <-]. apply Layer_compute_length in Hb.
    simpl in *. rewrite Hb, grow_length. lia.
  - intros L1 L2 mid2 IH buffer side buffer'. cbn [compute_loop].
    destruct (Layer_compute L1 _ _) as [b|] eqn:Hb; [|done].
    cbn [mbind option_bind].
    destruct (Layer_compute L2 _ _) as [a|] eqn:Ha; [|done].
    cbn [mbind option_bind]. intros Hrun.
    apply IH in Hrun as [HA HB].
    apply Layer_compute_length in Hb, Ha.
    simpl in *. rewrite Ha, grow_length in HA. rewrite Hb, grow_length in HB. lia.
Qed.

(** A call of [Network::compute] that returns leaves neither container of
    the buffer shorter than it was. *)
Lemma Network_compute_grows N input output (buffer : ComputeBuffer T) out buffer' :
  Network_compute N input output buffer = Some (out, buffer') →
  length (A buffer) ≤ length (A buffer') ∧
  length (B buffer) ≤ length (B buffer').
Proof.
  unfold Network_compute. destruct (l N) as [|l_first [|L2 rest2]]; [done| |].
  - destruct (Layer_compute _ _ _); simpl; [|done]. by intros [= _ <-].
  - intros Hrun. cbv zeta in Hrun.
    apply bind_Some in Hrun as (a & Ha & Hrun).
    apply bind_Some in Hrun as ([side buffer2] & Hloop & Hrun).
    apply bind_Some in Hrun as (o & _ & Hrun).
    injection Hrun as _ <-.
    apply compute_loop_grows in Hloop as [HA HB].
    apply Layer_compute_length in Ha.
    simpl in *. rewrite Ha, grow_length in HA. lia.
Qed.

(** X6.  On a well-formed network [Network::compute] reads the first
    [inputs()] cells of the input and writes the first [outputs()] cells of
    the output: two calls on inputs that agree on these cells write the
    same values, whatever the output ranges and the buffers held; each
    leaves the rest of its output range as it was and neither container of
    its buffer shorter. *)
Theorem Network_compute_local N n_in input1 input2 output1 output2
    (buffer1 buffer2 : ComputeBuffer T) :
  Network_wf n_in N →
  n_in ≤ length input1 → n_in ≤ length input2 →
  out_of n_in (l N) ≤ length output1 → out_of n_in (l N) ≤ length output2 →
  take n_in input1 = take n_in input2 →
  ∃ vals buffer1' buffer2',
    length vals = out_of n_in (l N) ∧
    Network_compute N input1 output1 buffer1 =
      Some (vals ++ drop (out_of n_in (l N)) output1, buffer1') ∧
    Network_compute N input2 output2 buffer2 =
      Some (vals ++ drop (out_of n_in (l N)) output2, buffer2') ∧
    length (A buffer1) ≤ length (A buffer1') ∧
    length (B buffer1) ≤ length (B buffer1') ∧
    length (A buffer2) ≤ length (A buffer2') ∧
    length (B buffer2) ≤ length (B buffer2').
Proof.
  intros Hwf Hi1 Hi2 Ho1 Ho2 Htake.
  destruct (Network_compute_feed N n_in input1 output1 buffer1 Hwf Hi1 Ho1)
    as [b1 Hr1].
  destruct (Network_compute_feed N n_in input2 output2 buffer2 Hwf Hi2 Ho2)
    as [b2 Hr2].
  rewrite <- Htake in Hr2.
  destruct (Network_compute_grows _ _ _ _ _ _ Hr1) as [? ?].
  destruct (Network_compute_grows _ _ _ _ _ _ Hr2) as [? ?].
  eexists _, b1, b2. split_and!; try done.
  destruct Hwf as (_ & Hwf & _). apply feed_length; [done|].
  rewrite length_take. lia.
Qed.

End Network_extras.

Lemma Network_new_spec_witness :
  layers (Network_new 3 [2; 1] heaviside_Z) = 2 ∧
  Network_inputs (Network_new 3 [2; 1] heaviside_Z) = Some 3 ∧
  Network_outputs (Network_new 3 [2; 1] heaviside_Z) = Some 1.
Proof.
  destruct (Network_new_spec 3 [2; 1] heaviside_Z) as (Hl & _ & _ & Hio & _).
  - split; [|split]; [vm_compute; reflexivity|vm_compute; reflexivity|exact I].
  - destruct (Hio 1 eq_refl) as (Hi & Ho & _). done.
Defined.

Lemma Network_compute_local_witness :
  ∃ vals buffer1' buffer2',
    Network_compute net_3 [2; 7]%Z [0%Z] ComputeBuffer_new
      = Some (vals ++ [], buffer1') ∧
    Network_compute net_3 [2%Z] [5; 5]%Z {| A := [4; 4; 4]%Z; B := [] |}
      = Some (vals ++ [5%Z], buffer2').
Proof.
  destruct (Network_compute_local net_3 1 [2; 7]%Z [2%Z] [0%Z] [5; 5]%Z
              ComputeBuffer_new {| A := [4; 4; 4]%Z; B := [] |})
    as (vals & b1 & b2 & _ & H1 & H2 & _).
  - split_and!; [done| |done]. repeat constructor; by eexists.
  - simpl. lia.
  - simpl. lia.
  - simpl. lia.
  - simpl. lia.
  - reflexivity.
  - by exists vals, b1, b2.
Defined.

(** * Further properties of training *)

Section Network_train_shape.
Context {T : Type} `{Scalar T}.
Implicit Types (L : Layer T) (N : Network T) (ls : list (Layer T)).
Implicit Types (input output target : list T) (buffer : TrainBuffer T).

Lemma same_shape_refl ls : Forall2 same_shape ls ls.
Proof. induction ls; constructor; [by unfold same_shape|done]. Qed.

Lemma same_shape_insert ls :
  ∀ i L L', ls !! i = Some L → same_shape L L' →
            Forall2 same_shape ls (<[i := L']> ls).
Proof.
  induction ls as [|L0 ls IH]; intros i L L' Hi Hs; [done|].
  destruct i as [|i]; simpl in *.
  - injection Hi as ->. constructor; [done|apply same_shape_refl].
  - constructor; [by unfold same_shape|by apply (IH i L)].
Qed.

Lemma same_shape_trans ls1 ls2 ls3 :
  Forall2 same_shape ls1 ls2 → Forall2 same_shape ls2 ls3 →
  Forall2 same_shape ls1 ls3.
Proof.
  intros H12. revert ls3. induction H12 as [|L1 L2 ls1 ls2 Hs H12 IH];
    intros ls3 H23; inversion H23 as [|? L3 ? ls3' Hs' H23']; subst;
    constructor; [|by apply IH].
  unfold same_shape in *.
  destruct Hs as (? & ? & ? & ?), Hs' as (? & ? & ? & ?).
  split_and!; congruence.
Qed.

Lemma same_shape_wf ls ls' :
  Forall2 same_shape ls ls' → Forall Layer_wf ls → Forall Layer_wf ls'.
Proof.
  induction 1 as [|L L' ls ls' Hs _ IH]; intros Hwf; [done|].
  apply Forall_cons_1 in Hwf as [[Hw Ht] Hwf]. constructor; [|by apply IH].
  destruct Hs as (HI & HO & Htf & Hlen). unfold Layer_wf.
  by rewrite HI, HO, Htf, Hlen.
Qed.

Lemma same_shape_derivative ls ls' :
  Forall2 same_shape ls ls' →
  Forall (λ L, is_Some (derivative (tf L))) ls →
  Forall (λ L, is_Some (derivative (tf L))) ls'.
Proof.
  induction 1 as [|L L' ls ls' Hs _ IH]; intros Hd; [done|].
  apply Forall_cons_1 in Hd as [Hd1 Hd]. constructor; [|by apply IH].
  destruct Hs as (_ & _ & -> & _). done.
Qed.

Lemma same_shape_chained ls ls' :
  Forall2 same_shape ls ls' → ∀ prev, chained prev ls → chained prev ls'.
Proof.
  induction 1 as [|L L' ls ls' Hs _ IH]; intros prev Hch; [done|].
  destruct Hch as [Hin Hch]. destruct Hs as (HI & HO & _ & _). simpl.
  rewrite HI, HO. split; [done|by apply IH].
Qed.

Lemma same_shape_out_of ls ls' :
  Forall2 same_shape ls ls' → ∀ prev, out_of prev ls' = out_of prev ls.
Proof.
  induction 1 as [|L L' ls ls' Hs _ IH]; intros prev; [done|].
  rewrite !out_of_cons. destruct Hs as (_ & -> & _ & _). apply IH.
Qed.

Lemma train_call_shape ls l_iter rate input target buffer b_iter ls' buffer' :
  train_call ls l_iter rate input target buffer b_iter = Some (ls', buffer') →
  Forall2 same_shape ls ls'.
Proof.
  unfold train_call. intros Hrun.
  apply bind_Some in Hrun as (L & HL & Hrun).
  apply bind_Some in Hrun as (slot & _ & Hrun). cbv zeta in Hrun.
  apply bind_Some in Hrun as ([L' back] & Htr & Hrun).
  injection Hrun as <- _.
  apply (same_shape_insert ls l_iter L L' HL).
  apply Layer_train_shape in Htr. unfold same_shape. tauto.
Qed.

Lemma Network_train_shape N rate input target buffer N' buffer' :
  Network_train N rate input target buffer = Some (N', buffer') →
  Forall2 same_shape (l N) (l N').
Proof.
  unfold Network_train. destruct (l N) as [|l_first rest] eqn:HlN; [done|].
  set (n := length (l_first :: rest)). cbv zeta. intros Hrun.
  apply bind_Some in Hrun as (slot0 & _ & Hrun).
  apply bind_Some in Hrun as (a & _ & Hrun).
  apply bind_Some in Hrun as ([buffer1 b_iter] & _ & Hrun).
  apply bind_Some in Hrun as (l_iter & Hl & Hrun).
  destruct (decide (l_iter = 0)) as [->|Hne].
  - apply bind_Some in Hrun as ([ls1 buffer2] & Hc1 & Hrun).
    injection Hrun as <- _. simpl. by apply train_call_shape in Hc1.
  - apply bind_Some in Hrun as (pb & _ & Hrun).
    apply bind_Some in Hrun as (prev & _ & Hrun).
    apply bind_Some in Hrun as ([ls1 buffer2] & Hc1 & Hrun).
    apply bind_Some in Hrun as (b_iter1 & _ & Hrun).
    rewrite train_interior_exit in Hrun by done. cbn [mbind option_bind] in Hrun.
    apply bind_Some in Hrun as (next & _ & Hrun).
    apply bind_Some in Hrun as ([ls3 buffer4] & Hc3 & Hrun).
    injection Hrun as <- _. simpl.
    apply train_call_shape in Hc1, Hc3. by eapply same_shape_trans.
Qed.

(** X7.  A call of [Network::train] that returns keeps the number of
    layers and, layer by layer, the input and output sizes, the transfer
    function and the number of weights; a well-formed (trainable) network
    stays well formed (trainable), with the same output size. *)
Theorem Network_train_keeps_shape N n_in rate input target buffer N' buffer' :
  Network_train N rate input target buffer = Some (N', buffer') →
  layers N' = layers N ∧
  Forall2 same_shape (l N) (l N') ∧
  out_of n_in (l N') = out_of n_in (l N) ∧
  (Network_wf n_in N → Network_wf n_in N') ∧
  (Network_trainable n_in N → Network_trainable n_in N').
Proof.
  intros Hrun. pose proof (Network_train_shape _ _ _ _ _ _ _ Hrun) as Hs.
  assert (Hwf : Network_wf n_in N → Network_wf n_in N').
  { intros (Hne & Hwf & Hch). split_and!.
    - intros HN'. apply Forall2_length in Hs. rewrite HN' in Hs.
      by destruct (l N).
    - by eapply same_shape_wf.
    - by eapply same_shape_chained. }
  split_and!; try done.
  - unfold layers. symmetry. by eapply Forall2_length.
  - by apply same_shape_out_of.
  - intros [HN Hd]. split; [by apply Hwf|]. by eapply same_shape_derivative.
Qed.

End Network_train_shape.

Lemma Network_train_keeps_shape_witness :
  ∃ N' buffer',
    Network_train net_3 1%Z [2%Z] [0%Z] [] = Some (N', buffer') ∧
    layers N' = 3 ∧ Network_trainable 1 N'.
Proof.
  eexists _, _. split; [reflexivity|].
  destruct (Network_train_keeps_shape net_3 1 1%Z [2%Z] [0%Z] [] _ _ eq_refl)
    as (Hl & _ & _ & _ & Htr).
  split; [exact Hl|]. apply Htr. split.
  - split_and!; [done| |done]. repeat constructor; by eexists.
  - repeat constructor; by eexists.
Defined.

Section Network_train_values.
Context {T : Type} `{Scalar T}.
Implicit Types (L : Layer T) (N : Network T) (ls : list (Layer T)).
Implicit Types (input output target : list T) (buffer : TrainBuffer T).

Lemma feed_cons L ls input : feed (L :: ls) input = feed ls (Layer_apply L input).
Proof. done. Qed.

(** The forward pass of [Network::train] leaves in slot [k]'s [A] the
    activations of layer [k]. *)
Lemma train_forward_values ls :
  ∀ buffer b_iter prev src v,
    Forall Layer_wf ls → chained prev ls →
    b_iter + length ls < length buffer →
    buffer !! b_iter = Some src → take prev (A src) = v → length v = prev →
    ∃ buffer',
      train_forward ls buffer b_iter = Some (buffer', b_iter + length ls) ∧
      length buffer' = length buffer ∧
      (∀ k, k ≤ b_iter → buffer' !! k = buffer !! k) ∧
      (∀ k L, ls !! k = Some L →
         ∃ slot, buffer' !! (b_iter + 1 + k) = Some slot ∧
                 take (out_size L) (A slot) = feed (take (S k) ls) v).
Proof.
  induction ls as [|L ls IH];
    intros buffer b_iter prev src v Hwf Hch Hlen Hsrc Hv Hlv.
  - exists buffer. simpl. rewrite Nat.add_0_r. split_and!; try done.
  - apply Forall_cons_1 in Hwf as [HL Hwf]. destruct Hch as [Hin Hch].
    simpl in Hlen.
    destruct (lookup_lt_is_Some_2 buffer (S b_iter)) as [dst Hdst]; [lia|].
    destruct (Layer_compute_grow L (A src) v (A dst))
      as (a & Ha & Htake); try (done || congruence).
    set (slot := {| A := a; B := B dst |}).
    destruct (IH (<[S b_iter := slot]> buffer) (S b_iter) (out_size L) slot
                (Layer_apply L v))
      as (buffer' & Hrun & Hlb & Hold & Hnew); try done.
    { rewrite length_insert. lia. }
    { apply list_lookup_insert_eq. lia. }
    { by apply Layer_apply_length. }
    exists buffer'. split_and!.
    + cbn [train_forward]. rewrite Hsrc. cbn [mbind option_bind].
      rewrite Hdst. cbn [mbind option_bind].
      unfold beginA, outputs, set_A. cbn [A B]. rewrite Ha.
      cbn [mbind option_bind]. fold slot. rewrite Hrun.
      do 2 f_equal. simpl. lia.
    + by rewrite Hlb, length_insert.
    + intros k Hk. rewrite Hold by lia.
      apply list_lookup_insert_ne. lia.
    + intros [|k] L' HL'.
      * injection HL' as <-. exists slot. split; [|done].
        rewrite Nat.add_0_r, Nat.add_1_r. rewrite Hold by lia.
        apply list_lookup_insert_eq. lia.
      * destruct (Hnew k L' HL') as (slot' & Hslot' & Hout').
        exists slot'. split; [|done]. rewrite <- Hslot'. f_equal. lia.
Qed.

(** One training call of [Network::train], against a direct call of
    [Layer::train] on ranges with the same leading cells and a fresh
    [back] range. *)
Lemma train_call_canonical ls l_iter rate input target buffer b_iter L slot
    input0 output0 target0 :
  ls !! l_iter = Some L → buffer !! b_iter = Some slot →
  Layer_wf L → is_Some (derivative (tf L)) →
  in_size L ≤ length input → out_size L ≤ length (A slot) →
  out_size L ≤ length target →
  in_size L ≤ length input0 → out_size L ≤ length output0 →
  out_size L ≤ length target0 →
  take (in_size L) input0 = take (in_size L) input →
  take (out_size L) output0 = take (out_size L) (A slot) →
  take (out_size L) target0 = take (out_size L) target →
  ∃ L' bk back,
    Layer_train L rate input0 output0 target0 (replicate (in_size L) s_zero)
      = Some (L', bk) ∧
    length bk = in_size L ∧
    train_call ls l_iter rate input target buffer b_iter =
      Some (<[l_iter := L']> ls,
            <[b_iter := {| A := A slot; B := back |}]> buffer) ∧
    take (in_size L) back = bk.
Proof.
  intros HL Hslot [Hw _] [d Hd] Hin Hout Htgt Hin0 Hout0 Htgt0 Hti Hto Htt.
  destruct (Layer_train_prefix L rate d input0 input output0 (A slot)
              target0 target (replicate (in_size L) s_zero)
              (grow (in_size L) (B slot)))
    as (L' & b1 & b2 & Hr1 & Hr2 & Htk & Hl1 & Hl2 & _); try (done || lia).
  { by rewrite length_replicate. }
  { rewrite grow_length. lia. }
  rewrite length_replicate in Hl1.
  exists L', b1, b2. split_and!; try done.
  - unfold train_call. rewrite HL. cbn [mbind option_bind].
    rewrite Hslot. cbn [mbind option_bind].
    unfold beginB, inputs, set_B. cbn [A B]. by rewrite Hr2.
  - rewrite <- Htk. apply take_ge. lia.
Qed.

Lemma take_prefix_length (v : list T) (xs : list T) n :
  take n xs = v → length v = n → n ≤ length xs.
Proof. intros <-. rewrite length_take. lia. Qed.

(** [Network::train] on one layer. *)
Lemma Network_train_one N L rate input target buffer :
  l N = [L] → Layer_wf L → is_Some (derivative (tf L)) →
  in_size L ≤ length input → out_size L ≤ length target →
  ∃ L' bk buffer' slot,
    Layer_train L rate input (Layer_apply L input) target
      (replicate (in_size L) s_zero) = Some (L', bk) ∧
    Network_train N rate input target buffer = Some ({| l := [L'] |}, buffer') ∧
    length buffer' = max (length buffer) 1 ∧
    buffer' !! 0 = Some slot ∧
    take (out_size L) (A slot) = Layer_apply L input ∧
    take (in_size L) (B slot) = bk.
Proof.
  intros HlN Hwf Hder Hin Htgt.
  set (buffer0 := grow_slots 1 buffer).
  assert (Hl0 : length buffer0 = max (length buffer) 1).
  { subst buffer0. apply grow_slots_length. }
  destruct (lookup_lt_is_Some_2 buffer0 0) as [slot0 Hslot0]; [lia|].
  destruct (Layer_compute_grow L input (take (in_size L) input) (A slot0))
    as (a & Ha & Htake); try done.
  { rewrite length_take. lia. }
  rewrite Layer_apply_take in Htake.
  set (slot1 := {| A := a; B := B slot0 |}).
  destruct (train_call_canonical [L] 0 rate input target
              (<[0 := slot1]> buffer0) 0 L slot1
              input (Layer_apply L input) target)
    as (L' & bk & back & Hcan & Hlbk & Hcall & Hback); try done.
  { apply list_lookup_insert_eq. lia. }
  { simpl. apply (take_prefix_length (Layer_apply L input)); [done|].
    by apply Layer_apply_length. }
  { by rewrite Layer_apply_length. }
  { simpl. rewrite Htake. apply take_ge. by rewrite Layer_apply_length. }
  exists L', bk. eexists _, {| A := a; B := back |}. split_and!.
  - exact Hcan.
  - unfold Network_train. rewrite HlN. cbn [length]. fold buffer0.
    rewrite Hslot0. cbn [mbind option_bind].
    unfold beginA, outputs, set_A. cbn [A B]. rewrite Ha.
    cbn [mbind option_bind train_forward prev_it]. fold slot1.
    rewrite decide_True by done. rewrite Hcall.
    cbn [mbind option_bind]. reflexivity.
  - rewrite !length_insert. done.
  - apply list_lookup_insert_eq. rewrite length_insert. lia.
  - done.
  - done.
Qed.

End Network_train_values.

Section Network_train_two.
Context {T : Type} `{Scalar T}.
Implicit Types (L : Layer T) (N : Network T) (ls : list (Layer T)).
Implicit Types (input output target : list T) (buffer : TrainBuffer T).

Lemma out_of_take ls k L prev :
  ls !! k = Some L → out_of prev (take (S k) ls) = out_size L.
Proof. intros HL. rewrite (take_S_r _ _ _ HL). apply out_of_snoc. Qed.

Lemma acts_length ls k L (v : list T) :
  Forall Layer_wf ls → ls !! k = Some L →
  length (feed (take (S k) ls) v) = out_size L.
Proof.
  intros Hwf HL. rewrite (feed_length (length v)); [|by apply Forall_take|done].
  by apply out_of_take.
Qed.

#[local] Arguments train_interior : simpl never.

(** [Network::train] on two layers or more: the forward pass, then the last
    layer and the one before it are trained, the latter on the external
    input. *)
Lemma Network_train_last_two N n_in rate input target buffer m L_m L_last :
  Network_trainable n_in N → Network_train_ranges_ok n_in N input target →
  length (l N) = S (S m) → l N !! m = Some L_m → l N !! S m = Some L_last →
  ∃ L_last' bk L_m' bk' buffer',
    Layer_train L_last rate (feed (take (S m) (l N)) (take n_in input))
      (feed (l N) (take n_in input)) target
      (replicate (in_size L_last) s_zero) = Some (L_last', bk) ∧
    Layer_train L_m rate input (feed (take (S m) (l N)) (take n_in input)) bk
      (replicate (in_size L_m) s_zero) = Some (L_m', bk') ∧
    Network_train N rate input target buffer =
      Some ({| l := <[m := L_m']> (<[S m := L_last']> (l N)) |}, buffer') ∧
    length buffer' = max (length buffer) (S (S m)) ∧
    (∀ k L, l N !! k = Some L →
       ∃ slot, buffer' !! k = Some slot ∧
               take (out_size L) (A slot) =
                 feed (take (S k) (l N)) (take n_in input)) ∧
    (∃ slot, buffer' !! S m = Some slot ∧ take (in_size L_last) (B slot) = bk) ∧
    (∃ slot, buffer' !! m = Some slot ∧ take (in_size L_m) (B slot) = bk').
Proof.
  intros [(Hne & Hwf & Hch) Hder] (Hin & Htgt & Hlast) Hlen HLm HLl.
  unfold Network_train.
  destruct (l N) as [|l_first rest] eqn:HlN; [done|]. clear Hne.
  set (ls := l_first :: rest) in *.
  set (x := take n_in input).
  assert (Hlx : length x = n_in) by (subst x; rewrite length_take; lia).
  assert (Hm : length rest = S m) by (simpl in Hlen; lia).
  pose proof Hwf as Hwfall. pose proof Hch as Hchall.
  apply Forall_cons_1 in Hwf as [Hwf1 Hwf]. destruct Hch as [Hin1 Hch].
  set (buffer0 := grow_slots (length ls) buffer).
  assert (Hl0 : length buffer0 = max (length buffer) (S (S m))).
  { subst buffer0. rewrite grow_slots_length, Hlen. done. }
  destruct (lookup_lt_is_Some_2 buffer0 0) as [slot0 Hslot0]; [lia|].
  destruct (Layer_compute_grow l_first input x (A slot0))
    as (a & Ha & Htakea); try done.
  { subst x. by rewrite Hin1. }
  { by rewrite Hin1. }
  set (slot1 := {| A := a; B := B slot0 |}).
  destruct (train_forward_values rest (<[0 := slot1]> buffer0) 0
              (out_size l_first) slot1 (Layer_apply l_first x))
    as (buffer1 & Hfw & Hlb & Hold & Hnew); try done.
  { rewrite length_insert. simpl. lia. }
  { apply list_lookup_insert_eq. lia. }
  { by apply Layer_apply_length. }
  rewrite length_insert in Hlb.
  assert (Hslots : ∀ k L, ls !! k = Some L →
            ∃ slot, buffer1 !! k = Some slot ∧
                    take (out_size L) (A slot) = feed (take (S k) ls) x).
  { intros [|k] L HL.
    - injection HL as <-. exists slot1. split; [|done].
      rewrite Hold by lia. apply list_lookup_insert_eq. lia.
    - apply (Hnew k L HL). }
  assert (Hacts : ∀ k L, ls !! k = Some L →
            length (feed (take (S k) ls) x) = out_size L).
  { intros k L HL. by apply acts_length. }
  destruct (Hslots m L_m HLm) as (prev & Hprev & Hpa).
  destruct (Hslots (S m) L_last HLl) as (slot_l & Hslotl & Hla).
  assert (Hall : feed (take (S (S m)) ls) x = feed ls x).
  { by rewrite take_ge by lia. }
  rewrite Hall in Hla.
  pose proof (Hacts m L_m HLm) as Hlam.
  pose proof (Hacts (S m) L_last HLl) as Hlal. rewrite Hall in Hlal.
  set (a_m := feed (take (S m) ls) x) in *.
  set (a_last := feed ls x) in *.
  assert (Hchl : in_size L_last = out_size L_m).
  { by apply (chained_lookup ls n_in m). }
  assert (Htl : out_size L_last ≤ length target).
  { rewrite <- (out_of_last ls n_in); [done|].
    rewrite <- HLl. f_equal. lia. }
  destruct (train_call_canonical ls (S m) rate (A prev) target buffer1 (S m)
              L_last slot_l a_m a_last target)
    as (L_last' & bk & back1 & Hcan1 & Hlbk & Hcall1 & Hback1);
    try (done || lia).
  { by apply (Forall_lookup_1 _ _ _ _ Hwfall HLl). }
  { by apply (Forall_lookup_1 _ _ _ _ Hder HLl). }
  { rewrite Hchl. by apply (take_prefix_length a_m). }
  { by apply (take_prefix_length a_last). }
  { rewrite Hchl, Hpa. apply take_ge. lia. }
  { rewrite Hla. apply take_ge. lia. }
  set (buffer2 := <[S m := {| A := A slot_l; B := back1 |}]> buffer1).
  assert (Hb1len : in_size L_last ≤ length back1).
  { by apply (take_prefix_length bk). }
  destruct (train_call_canonical (<[S m := L_last']> ls) m rate input back1
              buffer2 m L_m prev input a_m bk)
    as (L_m' & bk' & back2 & Hcan2 & Hlbk' & Hcall2 & Hback2);
    try (done || lia).
  { rewrite list_lookup_insert_ne by lia. done. }
  { subst buffer2. rewrite list_lookup_insert_ne by lia. done. }
  { by apply (Forall_lookup_1 _ _ _ _ Hwfall HLm). }
  { by apply (Forall_lookup_1 _ _ _ _ Hder HLm). }
  { apply Hlast. rewrite <- HLm. f_equal. lia. }
  { by apply (take_prefix_length a_m). }
  { apply Hlast. rewrite <- HLm. f_equal. lia. }
  { rewrite Hpa. apply take_ge. lia. }
  { rewrite <- Hchl, Hback1. apply take_ge. lia. }
  exists L_last', bk, L_m', bk'.
  exists (<[m := {| A := A prev; B := back2 |}]> buffer2).
  split_and!.
  - exact Hcan1.
  - exact Hcan2.
  - fold buffer0. rewrite Hslot0. cbn [mbind option_bind].
    unfold beginA, outputs, set_A. cbn [A B]. rewrite Ha.
    cbn [mbind option_bind]. fold slot1. rewrite Hfw.
    cbn [mbind option_bind Nat.add]. rewrite Hlen, Hm.
    cbn [mbind option_bind prev_it].
    rewrite decide_False by done.
    rewrite Hprev. cbn [mbind option_bind]. rewrite Hcall1.
    cbn [mbind option_bind].
    rewrite train_interior_exit by done. cbn [mbind option_bind pred].
    fold buffer2.
    assert (Hnext : buffer2 !! S m = Some {| A := A slot_l; B := back1 |}).
    { subst buffer2. apply list_lookup_insert_eq.
      apply lookup_lt_is_Some_1. by eexists. }
    rewrite Hnext. cbn [mbind option_bind B]. rewrite Hcall2.
    cbn [mbind option_bind]. reflexivity.
  - subst buffer2. rewrite !length_insert. lia.
  - intros k L HL. destruct (Hslots k L HL) as (slot & Hslot & Hsa).
    assert (Hk : k < length buffer1) by (apply lookup_lt_is_Some_1; by eexists).
    destruct (decide (k = m)) as [->|Hkm].
    + eexists. split.
      * apply list_lookup_insert_eq. subst buffer2. rewrite length_insert. lia.
      * simpl. rewrite HLm in HL. injection HL as <-. done.
    + rewrite list_lookup_insert_ne by done. subst buffer2.
      destruct (decide (k = S m)) as [->|Hkl].
      * eexists. split; [by apply list_lookup_insert_eq|].
        cbn [A]. rewrite Hslotl in Hslot. injection Hslot as ->. exact Hsa.
      * rewrite list_lookup_insert_ne by done. by exists slot.
  - eexists. split.
    + rewrite list_lookup_insert_ne by lia. subst buffer2.
      apply list_lookup_insert_eq. apply lookup_lt_is_Some_1. by eexists.
    + done.
  - eexists. split.
    + apply list_lookup_insert_eq. subst buffer2. rewrite length_insert.
      apply lookup_lt_is_Some_1. by eexists.
    + done.
Qed.

End Network_train_two.

Section Network_train_extras.
Context {T : Type} `{Scalar T}.
Implicit Types (L : Layer T) (N : Network T) (ls : list (Layer T)).
Implicit Types (input output target : list T) (buffer : TrainBuffer T).

Lemma Network_eta N : {| l := l N |} = N.
Proof. by destruct N. Qed.

Lemma ranges_one N L n_in input target :
  l N = [L] → Network_trainable n_in N →
  Network_train_ranges_ok n_in N input target →
  Layer_wf L ∧ is_Some (derivative (tf L)) ∧ n_in = in_size L ∧
  in_size L ≤ length input ∧ out_size L ≤ length target.
Proof.
  intros HlN [(_ & Hwf & Hch) Hder] (Hin & Htgt & _). rewrite HlN in *.
  apply Forall_cons_1 in Hwf as [Hwf _]. apply Forall_cons_1 in Hder as [Hder _].
  destruct Hch as [<- _]. done.
Qed.

(** X8.  On a trainable network and ranges that are long enough, the
    network that [Network::train] leaves is the same for every state of
    the supplied [TrainBuffer], which it leaves with the maximum of its
    length and [layers()] slots; the overload without a buffer leaves that
    network too. *)
Theorem Network_train_buffer_independent N n_in rate input target :
  Network_trainable n_in N → Network_train_ranges_ok n_in N input target →
  ∃ N',
    (∀ buffer, ∃ buffer',
       Network_train N rate input target buffer = Some (N', buffer') ∧
       length buffer' = max (length buffer) (layers N)) ∧
    Network_train_temp N rate input target = Some N'.
Proof.
  intros Htr Hranges.
  assert (Hall : ∃ N', ∀ buffer, ∃ buffer',
            Network_train N rate input target buffer = Some (N', buffer') ∧
            length buffer' = max (length buffer) (layers N)).
  { unfold layers. destruct (l N) as [|L0 [|L1 rest]] eqn:HlN.
    - by destruct Htr as [(Hne & _) _].
    - destruct (ranges_one N L0 n_in input target HlN Htr Hranges)
        as (Hwf & Hder & -> & Hin & Htgt).
      destruct (Network_train_one N L0 rate input target [] HlN Hwf Hder Hin Htgt)
        as (L' & bk & _ & _ & Hcan & _).
      exists {| l := [L'] |}. intros buffer.
      destruct (Network_train_one N L0 rate input target buffer HlN Hwf Hder
                  Hin Htgt)
        as (L'' & bk' & buffer' & _ & Hcan' & Hrun & Hlen & _).
      rewrite Hcan in Hcan'. injection Hcan' as <- <-.
      by exists buffer'.
    - set (m := length rest).
      assert (Hlen : length (l N) = S (S m)) by (by rewrite HlN).
      destruct (lookup_lt_is_Some_2 (l N) m) as [L_m HLm]; [lia|].
      destruct (lookup_lt_is_Some_2 (l N) (S m)) as [L_l HLl]; [lia|].
      destruct (Network_train_last_two N n_in rate input target [] m L_m L_l
                  Htr Hranges Hlen HLm HLl)
        as (Ll' & bk & Lm' & bk' & _ & Hc1 & Hc2 & _).
      exists {| l := <[m := Lm']> (<[S m := Ll']> (l N)) |}. intros buffer.
      destruct (Network_train_last_two N n_in rate input target buffer m L_m L_l
                  Htr Hranges Hlen HLm HLl)
        as (Ll2 & bk2 & Lm2 & bk2' & buffer' & Hc1' & Hc2' & Hrun & Hlb & _).
      rewrite Hc1 in Hc1'. injection Hc1' as <- <-.
      rewrite Hc2 in Hc2'. injection Hc2' as <- <-.
      exists buffer'. rewrite <- HlN, Hlen. done. }
  destruct Hall as [N' HN']. exists N'. split; [done|].
  unfold Network_train_temp. destruct (HN' []) as (buffer' & -> & _). done.
Qed.

(** X9.  On a trainable network of two layers [L0], [L1], [Network::train]
    leaves the layers that the direct calls leave: [L0.compute] from the
    input, [L1.compute] from its output, [L1.train] on these two against
    the target, and [L0.train] on the input and its own output against the
    [back] range that [L1.train] filled. *)
Theorem Network_train_two_layers N L0 L1 rate input target :
  l N = [L0; L1] → Network_trainable (in_size L0) N →
  in_size L0 ≤ length input → out_size L1 ≤ length target →
  ∃ out0 out1 L1' bk L0' bk0,
    Layer_compute L0 input (replicate (out_size L0) s_zero) = Some out0 ∧
    Layer_compute L1 out0 (replicate (out_size L1) s_zero) = Some out1 ∧
    Layer_train L1 rate out0 out1 target (replicate (in_size L1) s_zero)
      = Some (L1', bk) ∧
    Layer_train L0 rate input out0 bk (replicate (in_size L0) s_zero)
      = Some (L0', bk0) ∧
    (∀ buffer, ∃ buffer',
       Network_train N rate input target buffer =
         Some ({| l := [L0'; L1'] |}, buffer')) ∧
    Network_train_temp N rate input target = Some {| l := [L0'; L1'] |}.
Proof.
  intros HlN Htr Hin Htgt.
  pose proof Htr as [(_ & Hwf & Hch) _]. rewrite HlN in Hwf, Hch.
  apply Forall_cons_1 in Hwf as [Hwf0 Hwf]. apply Forall_cons_1 in Hwf as [Hwf1 _].
  destruct Hch as (_ & Hin1 & _).
  assert (Hranges : Network_train_ranges_ok (in_size L0) N input target).
  { split_and!; [done|by rewrite HlN|]. rewrite HlN. by intros L [= <-]. }
  assert (Hlen : length (l N) = 2) by (by rewrite HlN).
  assert (HN0 : l N !! 0 = Some L0) by (by rewrite HlN).
  assert (HN1 : l N !! 1 = Some L1) by (by rewrite HlN).
  set (out0 := Layer_apply L0 input).
  set (out1 := Layer_apply L1 out0).
  assert (Hf0 : feed (take 1 (l N)) (take (in_size L0) input) = out0).
  { rewrite HlN. cbn [take]. rewrite feed_cons. by rewrite Layer_apply_take. }
  assert (Hf1 : feed (l N) (take (in_size L0) input) = out1).
  { rewrite HlN. rewrite !feed_cons. by rewrite Layer_apply_take. }
  assert (Hc0 : Layer_compute L0 input (replicate (out_size L0) s_zero)
                = Some out0).
  { rewrite Layer_compute_apply; try (done || by rewrite length_replicate).
    rewrite drop_ge by (by rewrite length_replicate). by rewrite app_nil_r. }
  assert (Hc1 : Layer_compute L1 out0 (replicate (out_size L1) s_zero)
                = Some out1).
  { rewrite Layer_compute_apply; try (done || by rewrite length_replicate).
    - rewrite drop_ge by (by rewrite length_replicate). by rewrite app_nil_r.
    - subst out0. by rewrite Layer_apply_length, Hin1. }
  destruct (Network_train_last_two N (in_size L0) rate input target [] 0 L0 L1
              Htr Hranges Hlen HN0 HN1)
    as (L1' & bk & L0' & bk0 & _ & Hcan1 & Hcan2 & _).
  rewrite Hf0, Hf1 in Hcan1. rewrite Hf0 in Hcan2.
  assert (Hnet : ∀ buffer, ∃ buffer',
            Network_train N rate input target buffer =
              Some ({| l := [L0'; L1'] |}, buffer')).
  { intros buffer.
    destruct (Network_train_last_two N (in_size L0) rate input target buffer
                0 L0 L1 Htr Hranges Hlen HN0 HN1)
      as (L1'' & bk' & L0'' & bk0' & buffer' & Hcan1' & Hcan2' & Hrun & _).
    rewrite Hf0, Hf1 in Hcan1'. rewrite Hf0 in Hcan2'.
    rewrite Hcan1 in Hcan1'. injection Hcan1' as <- <-.
    rewrite Hcan2 in Hcan2'. injection Hcan2' as <- <-.
    exists buffer'. rewrite Hrun, HlN. done. }
  exists out0, out1, L1', bk, L0', bk0. split_and!; try done.
  unfold Network_train_temp. destruct (Hnet []) as [buffer' ->]. done.
Qed.

(** X10.  On a trainable network of three layers or more, [Network::train]
    trains the last two layers only: the last one on the activations of
    the layer before it, against the target, and the last but one on the
    external input (not on the activations of the layer before it),
    against the [back] range of the last; every earlier layer is left as
    it was. *)
Theorem Network_train_three_or_more N n_in rate input target buffer j L_m L_last :
  Network_trainable n_in N → Network_train_ranges_ok n_in N input target →
  length (l N) = S (S (S j)) →
  l N !! S j = Some L_m → l N !! S (S j) = Some L_last →
  ∃ N' buffer' L_last' bk L_m' bk',
    Network_train N rate input target buffer = Some (N', buffer') ∧
    (∀ k, k ≤ j → l N' !! k = l N !! k) ∧
    l N' !! S j = Some L_m' ∧ l N' !! S (S j) = Some L_last' ∧
    Layer_train L_last rate (feed (take (S (S j)) (l N)) (take n_in input))
      (feed (l N) (take n_in input)) target
      (replicate (in_size L_last) s_zero) = Some (L_last', bk) ∧
    Layer_train L_m rate input
      (feed (take (S (S j)) (l N)) (take n_in input)) bk
      (replicate (in_size L_m) s_zero) = Some (L_m', bk').
Proof.
  intros Htr Hranges Hlen HLm HLl.
  destruct (Network_train_last_two N n_in rate input target buffer (S j)
              L_m L_last Htr Hranges Hlen HLm HLl)
    as (Ll' & bk & Lm' & bk' & buffer' & Hc1 & Hc2 & Hrun & _).
  eexists _, buffer', Ll', bk, Lm', bk'. split_and!; try done.
  - intros k Hk. simpl. by rewrite !list_lookup_insert_ne by lia.
  - simpl. apply list_lookup_insert_eq. rewrite length_insert. lia.
  - simpl. rewrite list_lookup_insert_ne by lia.
    apply list_lookup_insert_eq. lia.
Qed.

Lemma chained_take ls : ∀ prev k, chained prev ls → chained prev (take k ls).
Proof.
  induction ls as [|L ls IH]; intros prev k Hch; [by destruct k|].
  destruct k as [|k]; [done|]. destruct Hch as [Hin Hch]. simpl.
  split; [done|by apply IH].
Qed.

(** X11.  After [Network::train], slot [k] of the [TrainBuffer] holds in
    the first cells of its [A] the activations of layer [k] for the input,
    computed with the weights the network had before the call: what
    [Network::compute] of the first [k+1] layers writes. *)
Theorem Network_train_slots N n_in rate input target buffer :
  Network_trainable n_in N → Network_train_ranges_ok n_in N input target →
  ∃ N' buffer',
    Network_train N rate input target buffer = Some (N', buffer') ∧
    ∀ k L, l N !! k = Some L →
      ∃ slot acts cbuf',
        buffer' !! k = Some slot ∧
        Network_compute {| l := take (S k) (l N) |} input
          (replicate (out_size L) s_zero) ComputeBuffer_new = Some (acts, cbuf') ∧
        take (out_size L) (A slot) = acts.
Proof.
  intros Htr Hranges.
  pose proof Htr as [(Hne & Hwf & Hch) Hder]. pose proof Hranges as (Hin & _ & _).
  assert (Hsub : ∀ k L, l N !! k = Some L →
            ∃ cbuf', Network_compute {| l := take (S k) (l N) |} input
                       (replicate (out_size L) s_zero) ComputeBuffer_new =
                     Some (feed (take (S k) (l N)) (take n_in input), cbuf')).
  { intros k L HL.
    destruct (Network_compute_feed {| l := take (S k) (l N) |} n_in input
                (replicate (out_size L) s_zero) ComputeBuffer_new)
      as [cbuf' Hrun].
    - split_and!; simpl.
      + rewrite (take_S_r _ _ _ HL). by destruct (take k (l N)).
      + by apply Forall_take.
      + by apply chained_take.
    - done.
    - simpl. rewrite (out_of_take _ _ L) by done. by rewrite length_replicate.
    - exists cbuf'. rewrite Hrun. simpl. do 2 f_equal.
      rewrite (out_of_take _ _ L) by done.
      rewrite drop_ge by (by rewrite length_replicate). by rewrite app_nil_r. }
  destruct (l N) as [|L0 [|L1 rest]] eqn:HlN; [done| |].
  - rewrite <- HlN in *.
    destruct (ranges_one N L0 n_in input target HlN Htr Hranges)
      as (Hwf0 & Hder0 & -> & Hin0 & Htgt0).
    destruct (Network_train_one N L0 rate input target buffer HlN Hwf0 Hder0
                Hin0 Htgt0)
      as (L' & bk & buffer' & slot & _ & Hrun & _ & Hslot & HA & _).
    eexists _, buffer'. split; [exact Hrun|].
    intros k L HL. rewrite HlN in HL. destruct k as [|k]; [|done].
    injection HL as <-.
    destruct (Hsub 0 L0) as [cbuf' Hc]; [by rewrite HlN|].
    exists slot. eexists _, cbuf'. split_and!; [done|exact Hc|].
    rewrite HA, HlN. cbn [take]. by rewrite feed_cons, Layer_apply_take.
  - rewrite <- HlN in *. set (m := length rest).
    assert (Hlen : length (l N) = S (S m)) by (by rewrite HlN).
    destruct (lookup_lt_is_Some_2 (l N) m) as [L_m HLm]; [lia|].
    destruct (lookup_lt_is_Some_2 (l N) (S m)) as [L_l HLl]; [lia|].
    destruct (Network_train_last_two N n_in rate input target buffer m L_m L_l
                Htr Hranges Hlen HLm HLl)
      as (Ll' & bk & Lm' & bk' & buffer' & _ & _ & Hrun & _ & Hslots & _).
    eexists _, buffer'. split; [exact Hrun|].
    intros k L HL. destruct (Hslots k L HL) as (slot & Hslot & HA).
    destruct (Hsub k L HL) as [cbuf' Hc].
    exists slot. eexists _, cbuf'. by split_and!.
Qed.

(** X12.  On scalars with [x - x = 0], [x * 0 = 0 * x = 0] and [x - 0 = x],
    training a trainable network on a sample it already reproduces
    changes nothing: when [Network::compute] writes for the input the
    first [outputs()] cells of the target, [Network::train] with that
    input and target returns the network as it was. *)
Theorem Network_train_at_target `{!ScalarZeroLaws T} N n_in rate input target
    output (cbuf cbuf' : ComputeBuffer T) out buffer :
  Network_trainable n_in N → Network_train_ranges_ok n_in N input target →
  out_of n_in (l N) ≤ length output →
  Network_compute N input output cbuf = Some (out, cbuf') →
  take (out_of n_in (l N)) out = take (out_of n_in (l N)) target →
  ∃ buffer', Network_train N rate input target buffer = Some (N, buffer').
Proof.
  intros Htr Hranges Hout Hcomp Htake.
  pose proof Htr as [(Hne & Hwf & Hch) Hder].
  pose proof Hranges as (Hin & Htgt & Hlast).
  set (x := take n_in input) in *.
  assert (Hlx : length x = n_in) by (subst x; rewrite length_take; lia).
  assert (Hlast_acts : take (out_of n_in (l N)) target = feed (l N) x).
  { destruct (Network_compute_feed N n_in input output cbuf)
      as [cb Hrun]; try done.
    rewrite Hrun in Hcomp. injection Hcomp as <- _.
    rewrite <- Htake. apply take_app_length'. symmetry. by apply feed_length. }
  assert (Hfix : ∀ L input0 output0 target0,
            Layer_wf L → is_Some (derivative (tf L)) →
            in_size L ≤ length input0 → length output0 = out_size L →
            out_size L ≤ length target0 →
            take (out_size L) target0 = output0 →
            Layer_train L rate input0 output0 target0
              (replicate (in_size L) s_zero) =
            Some (L, take (in_size L) input0)).
  { intros L input0 output0 target0 [Hw _] [d Hd] Hi Ho Ht Heq.
    rewrite (Layer_train_fixed L rate d); try (done || lia).
    - rewrite drop_ge by (by rewrite length_replicate). by rewrite app_nil_r.
    - by rewrite length_replicate.
    - rewrite Heq. apply take_ge. lia. }
  destruct (l N) as [|L0 [|L1 rest]] eqn:HlN; [done| |].
  - rewrite <- HlN in *.
    destruct (ranges_one N L0 n_in input target HlN Htr Hranges)
      as (Hwf0 & Hder0 & Hn & Hin0 & Htgt0).
    destruct (Network_train_one N L0 rate input target buffer HlN Hwf0 Hder0
                Hin0 Htgt0)
      as (L' & bk & buffer' & slot & Hcan & Hrun & _).
    rewrite (Hfix L0 input (Layer_apply L0 input) target) in Hcan; try done.
    + injection Hcan as <- _. exists buffer'.
      rewrite Hrun, <- HlN. by rewrite Network_eta.
    + by apply Layer_apply_length.
    + assert (Hol : out_of n_in (l N) = out_size L0) by (by rewrite HlN).
      rewrite Hol in Hlast_acts. rewrite Hlast_acts, HlN. subst x.
      rewrite Hn, feed_cons. by rewrite Layer_apply_take.
  - rewrite <- HlN in *. set (m := length rest).
    assert (Hlen : length (l N) = S (S m)) by (by rewrite HlN).
    destruct (lookup_lt_is_Some_2 (l N) m) as [L_m HLm]; [lia|].
    destruct (lookup_lt_is_Some_2 (l N) (S m)) as [L_l HLl]; [lia|].
    destruct (Network_train_last_two N n_in rate input target buffer m L_m L_l
                Htr Hranges Hlen HLm HLl)
      as (Ll' & bk & Lm' & bk' & buffer' & Hc1 & Hc2 & Hrun & _).
    pose proof (acts_length (l N) m L_m x Hwf HLm) as Hlam.
    assert (Hlal : length (feed (l N) x) = out_size L_l).
    { rewrite <- (acts_length (l N) (S m) L_l x Hwf HLl).
      by rewrite take_ge by lia. }
    assert (Hchl : in_size L_l = out_size L_m).
    { by apply (chained_lookup (l N) n_in m). }
    assert (Hol : out_of n_in (l N) = out_size L_l).
    { apply out_of_last. rewrite <- HLl. f_equal. lia. }
    subst x.
    assert (Hf1 : Layer_train L_l rate
                    (feed (take (S m) (l N)) (take n_in input))
                    (feed (l N) (take n_in input)) target
                    (replicate (in_size L_l) s_zero) =
                  Some (L_l, feed (take (S m) (l N)) (take n_in input))).
    { rewrite Hfix.
      - rewrite take_ge by lia. done.
      - by apply (Forall_lookup_1 _ _ _ _ Hwf HLl).
      - by apply (Forall_lookup_1 _ _ _ _ Hder HLl).
      - lia.
      - done.
      - by rewrite <- Hol.
      - by rewrite <- Hol. }
    rewrite Hf1 in Hc1. injection Hc1 as <- <-.
    assert (Hf2 : Layer_train L_m rate input
                    (feed (take (S m) (l N)) (take n_in input))
                    (feed (take (S m) (l N)) (take n_in input))
                    (replicate (in_size L_m) s_zero) =
                  Some (L_m, take (in_size L_m) input)).
    { apply Hfix.
      - by apply (Forall_lookup_1 _ _ _ _ Hwf HLm).
      - by apply (Forall_lookup_1 _ _ _ _ Hder HLm).
      - apply Hlast. rewrite <- HLm. f_equal. lia.
      - done.
      - lia.
      - apply take_ge. lia. }
    rewrite Hf2 in Hc2.
    injection Hc2 as <- _.
    exists buffer'. rewrite Hrun.
    rewrite (list_insert_id _ (S m) L_l) by done.
    rewrite (list_insert_id _ m L_m) by done.
    by rewrite Network_eta.
Qed.

End Network_train_extras.

Lemma Network_train_buffer_independent_witness :
  ∃ N',
    (∀ buffer, ∃ buffer',
       Network_train net_3 1%Z [2%Z] [0%Z] buffer = Some (N', buffer') ∧
       length buffer' = max (length buffer) (layers net_3)) ∧
    Network_train_temp net_3 1%Z [2%Z] [0%Z] = Some N'.
Proof.
  apply (Network_train_buffer_independent net_3 1 1%Z [2%Z] [0%Z]).
  - split.
    + split_and!; [done| |done]. repeat constructor; by eexists.
    + repeat constructor; by eexists.
  - split_and!.
    + simpl. lia.
    + simpl. lia.
    + intros L [= <-]. simpl. lia.
Defined.

Lemma Network_train_two_layers_witness :
  ∃ L0' L1',
    Network_train_temp net_2 1%Z [1; 1]%Z [0%Z] = Some {| l := [L0'; L1'] |} ∧
    w L1' = [-1; 0; 1]%Z.
Proof.
  destruct (Network_train_two_layers net_2 layer_2x2 layer_2x1 1%Z
              [1; 1]%Z [0%Z])
    as (out0 & out1 & L1' & bk & L0' & bk0 & Hc0 & Hc1 & Ht1 & Ht0 & _ & Htemp).
  - reflexivity.
  - split.
    + split_and!; [done| |done]. repeat constructor; by eexists.
    + repeat constructor; by eexists.
  - simpl. lia.
  - simpl. lia.
  - exists L0', L1'. split; [exact Htemp|].
    vm_compute in Htemp. by injection Htemp as _ <-.
Defined.

Lemma Network_train_three_or_more_witness :
  ∃ N' buffer',
    Network_train net_3 1%Z [2%Z] [0%Z] [] = Some (N', buffer') ∧
    l N' !! 0 = l net_3 !! 0.
Proof.
  destruct (Network_train_three_or_more net_3 1 1%Z [2%Z] [0%Z] [] 0
              {| in_size := 1; out_size := 1; tf := heaviside_Z; w := [0; 1]%Z |}
              {| in_size := 1; out_size := 1; tf := heaviside_Z; w := [0; 3]%Z |})
    as (N' & buffer' & _ & _ & _ & _ & Hrun & Hkeep & _).
  - split.
    + split_and!; [done| |done]. repeat constructor; by eexists.
    + repeat constructor; by eexists.
  - split_and!.
    + simpl. lia.
    + simpl. lia.
    + intros L [= <-]. simpl. lia.
  - reflexivity.
  - reflexivity.
  - reflexivity.
  - exists N', buffer'. split; [exact Hrun|]. apply Hkeep. lia.
Defined.

Lemma Network_train_slots_witness :
  ∃ N' buffer' slot,
    Network_train net_2 1%Z [1; 1]%Z [0%Z] [] = Some (N', buffer') ∧
    buffer' !! 0 = Some slot ∧ take 2 (A slot) = [1; 0]%Z.
Proof.
  destruct (Network_train_slots net_2 2 1%Z [1; 1]%Z [0%Z] [])
    as (N' & buffer' & Hrun & Hslots).
  - split.
    + split_and!; [done| |done]. repeat constructor; by eexists.
    + repeat constructor; by eexists.
  - split_and!.
    + simpl. lia.
    + simpl. lia.
    + intros L [= <-]. simpl. lia.
  - destruct (Hslots 0 layer_2x2 eq_refl) as (slot & acts & cbuf' & Hs & Hc & HA).
    exists N', buffer', slot. split_and!; [exact Hrun|exact Hs|].
    vm_compute in Hc. injection Hc as <- _. exact HA.
Defined.

Lemma Network_train_at_target_witness :
  ∃ buffer', Network_train net_2 5%Z [1; 1]%Z [1%Z] [] = Some (net_2, buffer').
Proof.
  eapply (Network_train_at_target net_2 2 5%Z [1; 1]%Z [1%Z] [0%Z]
            ComputeBuffer_new _ _ []).
  - split.
    + split_and!; [done| |done]. repeat constructor; by eexists.
    + repeat constructor; by eexists.
  - split_and!.
    + simpl. lia.
    + simpl. lia.
    + intros L [= <-]. simpl. lia.
  - simpl. lia.
  - reflexivity.
  - reflexivity.
Defined.

(** * When [Layer::compute] is defined *)

Section Layer_compute_definedness.
Context {T : Type} `{Scalar T}.
Implicit Types (L : Layer T) (input output wv : list T).

Lemma compute_inputs_Some_bound n wv input w_iter in_iter v r :
  compute_inputs n wv input w_iter in_iter v = Some r →
  n = 0 ∨ in_iter + n ≤ length input.
Proof.
  revert w_iter in_iter v. induction n as [|n IH]; intros w_iter in_iter v; simpl.
  - intros _. by left.
  - destruct (input !! in_iter) as [x|] eqn:Hx; simpl; [|done].
    destruct (wv !! w_iter); simpl; [|done].
    intros Hrun. apply IH in Hrun. apply lookup_lt_Some in Hx. right. lia.
Qed.

Lemma compute_outputs_Some_bound n L input w_iter output out_iter output' :
  compute_outputs n L input w_iter output out_iter = Some output' →
  n = 0 ∨
  (out_iter + n ≤ length output ∧ in_size L ≤ length input ∧
   is_Some (transfer (tf L))).
Proof.
  revert w_iter output out_iter.
  induction n as [|n IH]; intros w_iter output out_iter; simpl.
  - intros _. by left.
  - destruct (w L !! w_iter); simpl; [|done].
    destruct (compute_inputs _ _ _ _ _ _) as [[v w_iter']|] eqn:Hin; simpl; [|done].
    destruct (transfer (tf L)) as [f|]; simpl; [|done].
    destruct (store output out_iter (f v)) as [output1|] eqn:Hst; simpl; [|done].
    intros Hrun. right.
    assert (Hlt : out_iter < length output).
    { unfold store in Hst. by case_decide. }
    apply compute_inputs_Some_bound in Hin.
    apply IH in Hrun. rewrite (store_length _ _ _ _ Hst) in Hrun.
    split_and!; [lia|lia|done].
Qed.

(** X13.  On a layer with its [(I+1)*O] weights, [Layer::compute] is
    defined exactly when the layer has no output unit, or the input range
    has at least [I] cells, the output range at least [O] cells and the
    transfer function is present; it checks none of this. *)
Theorem Layer_compute_defined L input output :
  length (w L) = (in_size L + 1) * out_size L →
  (is_Some (Layer_compute L input output) ↔
     out_size L = 0 ∨
     (in_size L ≤ length input ∧ out_size L ≤ length output ∧
      is_Some (transfer (tf L)))).
Proof.
  intros Hw. split.
  - intros [output' Hrun]. unfold Layer_compute in Hrun.
    apply compute_outputs_Some_bound in Hrun as [HO|(Hout & Hin & Ht)];
      [by left|right].
    split_and!; (done || lia).
  - intros [HO|(Hin & Hout & [f Hf])].
    + unfold Layer_compute. rewrite HO. by eexists.
    + rewrite (Layer_compute_closed L input output f); (done || lia).
Qed.

End Layer_compute_definedness.

Lemma Layer_compute_defined_witness :
  Layer_compute layer_2x2 [1%Z] [0; 0]%Z = None ∧
  Layer_compute layer_2x2 [1; 1]%Z [0%Z] = None.
Proof.
  split.
  - destruct (Layer_compute layer_2x2 [1%Z] [0; 0]%Z) as [out|] eqn:Hrun; [|done].
    destruct (proj1 (Layer_compute_defined layer_2x2 [1%Z] [0; 0]%Z eq_refl))
      as [HO|(Hin & _)]; [by rewrite Hrun| |]; simpl in *; [done|lia].
  - destruct (Layer_compute layer_2x2 [1; 1]%Z [0%Z]) as [out|] eqn:Hrun; [|done].
    destruct (proj1 (Layer_compute_defined layer_2x2 [1; 1]%Z [0%Z] eq_refl))
      as [HO|(_ & Hout & _)]; [by rewrite Hrun| |]; simpl in *; [done|lia].
Defined.
